(** * libmv: the stabilize tool, point conditioning and projection helpers

    A shallow embedding of
    - [src/tools/stabilize.cc] (ReplaceFolder, the four ComputeRelative*Matrices
      chain composers, Stabilize and main),
    - [src/libmv_opencv/src/projection.cpp] (HomogeneousToEuclidean),
    - the point normalizer exercised by
      [src/libmv/multiview/fundamental_test.cc],
    together with the properties stated about them. *)

From stdpp Require Import list.
From Stdlib Require Import ZArith String Ascii Reals Lra Lia Sorted.

Local Open Scope Z_scope.

(** * Part I: the embedding *)

(** ** size_t arithmetic *)

Module SizeT.

(** [size_t] is a 64-bit unsigned integer; arithmetic wraps. *)
Definition modulus : Z := 2 ^ 64.
Definition wrap (z : Z) : Z := z mod modulus.
Definition add (a b : Z) : Z := wrap (a + b).
Definition sub (a b : Z) : Z := wrap (a - b).

(** [std::string::npos], i.e. [size_t(-1)]. *)
Definition npos : Z := modulus - 1.

End SizeT.

(** ** How a run ends *)

(** The code has no error handling of its own.  A call either returns or
    stops at a failed assertion, at an exception of the C++ library that
    nobody catches, or at an access outside the storage that was allocated
    for the object it reads or writes.  The last is undefined behaviour: the
    model follows a run up to such an access and no further.  An access
    inside the allocation but behind the last element of a vector is not
    such a stop: it yields what the storage holds (see [StdVector]). *)
Inductive failure : Type :=
| AssertionFailed
| OutOfBounds
| OutOfRangeException.

Inductive result (A : Type) : Type :=
| Ok (a : A)
| Fail (f : failure).

Arguments Ok {A} a.
Arguments Fail {A} f.

(** A procedure with visible effects: how far it got is in its trace, how it
    ended is its status. *)
Inductive status : Type :=
| Done
| Stopped (f : failure).

(** ** Vectors *)

Module StdVector.

(** A vector is modelled by the list of its elements together with what
    its allocation holds behind them: [reserve] and the growth of
    [push_back] leave room that [size()] does not count.  [v[i]] does not
    check [i]: below [size()] it is an element, from [size()] up to the
    capacity it is whatever the storage holds there, and past the capacity
    (for a vector that never allocated: everywhere) it is outside the
    allocation. *)
Definition unchecked {A : Type} (v reserved : list A) (i : nat) : option A :=
  (v ++ reserved) !! i.

End StdVector.

(** ** std::string *)

Module StdString.
Import SizeT.
Local Open Scope string_scope.

Definition size (s : string) : Z := Z.of_nat (String.length s).

(** The one-character strings the tool searches for. *)
Definition slash_char : ascii := ascii_of_nat 47.
Definition backslash_char : ascii := ascii_of_nat 92.
Definition dot_char : ascii := ascii_of_nat 46.
Definition slash : string := String slash_char EmptyString.
Definition backslash : string := String backslash_char EmptyString.
Definition dot : string := String dot_char EmptyString.

(** [s.rfind(pat)]: the highest position at which [pat] occurs in [s], or
    [npos].  [rfind_from s pat i] searches the suffix [s] of the subject
    whose first character sits at position [i]. *)
Fixpoint rfind_from (s pat : string) (i : nat) : option nat :=
  match s with
  | EmptyString => if prefix pat EmptyString then Some i else None
  | String _ s' =>
      match rfind_from s' pat (S i) with
      | Some j => Some j
      | None => if prefix pat s then Some i else None
      end
  end.

Definition rfind (s pat : string) : Z :=
  match rfind_from s pat 0 with
  | Some j => Z.of_nat j
  | None => npos
  end.

(** The characters of [s] from position [k] on. *)
Fixpoint skip (k : nat) (s : string) : string :=
  match k, s with
  | O, _ => s
  | S _, EmptyString => EmptyString
  | S k', String _ s' => skip k' s'
  end.

(** [s.substr(pos, len)]; [None] is the [std::out_of_range] thrown when
    [pos > s.size()]. *)
Definition substr (s : string) (pos len : Z) : option string :=
  if (size s <? pos)%Z then None
  else Some (substring (Z.to_nat pos) (Z.to_nat (Z.min len (size s - pos))) s).

(** [s.replace(0, len, r)]: the first [min(len, size)] characters give way
    to [r].  Position 0 is never out of range. *)
Definition replace0 (s : string) (len : Z) (r : string) : string :=
  r ++ skip (Z.to_nat (Z.min len (size s))) s.

(** Vocabulary for stating properties: occurrence of a character, and the
    last character of a string. *)
Fixpoint occurs (c : ascii) (s : string) : bool :=
  match s with
  | EmptyString => false
  | String a s' => Ascii.eqb a c || occurs c s'
  end.

Fixpoint ends_with (c : ascii) (s : string) : bool :=
  match s with
  | EmptyString => false
  | String a EmptyString => Ascii.eqb a c
  | String _ s' => ends_with c s'
  end.

End StdString.

(** ** ReplaceFolder (stabilize.cc, lines 82-108) *)

Module Folder.
Import SizeT StdString.
Local Open Scope string_scope.

(** [WIN32] tells which branch of the [#ifdef] was compiled. *)
Definition ReplaceFolder (WIN32 : bool) (s new_folder : string) : string :=
  let so := s in
  let nf := new_folder in
  if String.eqb new_folder "" then so
  else
    let n :=
      if WIN32 then
        let n := rfind so backslash in
        if (n =? npos)%Z then rfind so slash else n
      else rfind so slash in
    let nf :=
      if WIN32 then
        if negb (rfind nf backslash =? sub (size nf) 1)%Z
        then nf ++ backslash else nf
      else
        if negb (rfind nf slash =? sub (size nf) 1)%Z
        then nf ++ slash else nf in
    if negb (n =? npos)%Z then replace0 so (add n 1) nf
    else nf ++ s.

(** Vocabulary for stating properties: a folder name made to end with the
    separator [c]. *)
Definition with_separator (c : ascii) (folder : string) : string :=
  if ends_with c folder then folder else folder ++ String c EmptyString.

End Folder.

(** ** cv::Matx33d *)

(** A [double] is modelled by a real number: the development is about the
    values the arithmetic is meant to compute, not about rounding. *)
Module Matx.
Local Open Scope R_scope.

Record Matx33d : Type := Matx33 {
  m00 : R; m01 : R; m02 : R;
  m10 : R; m11 : R; m12 : R;
  m20 : R; m21 : R; m22 : R
}.

Definition eye : Matx33d := Matx33 1 0 0 0 1 0 0 0 1.
Definition zeros : Matx33d := Matx33 0 0 0 0 0 0 0 0 0.

(** [a * b] *)
Definition mul (a b : Matx33d) : Matx33d :=
  Matx33
    (m00 a * m00 b + m01 a * m10 b + m02 a * m20 b)
    (m00 a * m01 b + m01 a * m11 b + m02 a * m21 b)
    (m00 a * m02 b + m01 a * m12 b + m02 a * m22 b)
    (m10 a * m00 b + m11 a * m10 b + m12 a * m20 b)
    (m10 a * m01 b + m11 a * m11 b + m12 a * m21 b)
    (m10 a * m02 b + m11 a * m12 b + m12 a * m22 b)
    (m20 a * m00 b + m21 a * m10 b + m22 a * m20 b)
    (m20 a * m01 b + m21 a * m11 b + m22 a * m21 b)
    (m20 a * m02 b + m21 a * m12 b + m22 a * m22 b).

Definition determinant (a : Matx33d) : R :=
  m00 a * (m11 a * m22 a - m12 a * m21 a)
  - m01 a * (m10 a * m22 a - m12 a * m20 a)
  + m02 a * (m10 a * m21 a - m11 a * m20 a).

(** [a.inv()]: OpenCV inverts a 3x3 [Matx] by cofactors and hands back the
    zero matrix when the determinant is 0. *)
Definition inv (a : Matx33d) : Matx33d :=
  let d := determinant a in
  if Req_dec_T d 0 then zeros
  else
    let d := / d in
    Matx33
      ((m11 a * m22 a - m12 a * m21 a) * d)
      ((m02 a * m21 a - m01 a * m22 a) * d)
      ((m01 a * m12 a - m02 a * m11 a) * d)
      ((m12 a * m20 a - m10 a * m22 a) * d)
      ((m00 a * m22 a - m02 a * m20 a) * d)
      ((m02 a * m10 a - m00 a * m12 a) * d)
      ((m10 a * m21 a - m11 a * m20 a) * d)
      ((m01 a * m20 a - m00 a * m21 a) * d)
      ((m00 a * m11 a - m01 a * m10 a) * d).

Definition invertible (a : Matx33d) : Prop := determinant a <> 0.

End Matx.

(** ** The point normalizer (fundamental_test.cc, lines 36-55) *)

Module Conditioning.
Import Matx.
Local Open Scope R_scope.

(** A 2xN point matrix, column by column. *)
Definition Point : Type := (R * R)%type.
Definition Points : Type := list Point.

Fixpoint sum (l : list R) : R :=
  match l with
  | [] => 0
  | x :: l' => x + sum l'
  end.

Definition row_mean (xs : list R) : R := sum xs / INR (List.length xs).

Definition row_variance (xs : list R) : R :=
  sum (map (fun x => x * x) xs) / INR (List.length xs) - row_mean xs * row_mean xs.

(** Modelled from the spec: MeanAndVarianceAlongRows lives in
    libmv/numeric, which is not among the sources.  It is the per-row mean and
    the per-row variance (mean of squares minus squared mean) that the test
    compares with 0 and 2. *)
Definition MeanAndVarianceAlongRows (points : Points) : (R * R) * (R * R) :=
  let xs := map fst points in
  let ys := map snd points in
  ((row_mean xs, row_mean ys), (row_variance xs, row_variance ys)).



Definition translate (tx ty : R) : Matx33d := Matx33 1 0 tx 0 1 ty 0 0 1.

Definition diag (a b c : R) : Matx33d := Matx33 a 0 0 0 b 0 0 0 c.


(** The action of a 3x3 transform on a point: on (x, y, 1), then the
    division by the third coordinate. *)
Definition apply_to_point (T : Matx33d) (p : Point) : Point :=
  let '(x, y) := p in
  let u := m00 T * x + m01 T * y + m02 T * 1 in
  let v := m10 T * x + m11 T * y + m12 T * 1 in
  let w := m20 T * x + m21 T * y + m22 T * 1 in
  (u / w, v / w).

(** Modelled from the spec: ApplyTransformationToPoints (libmv/multiview,
    not among the sources) applies the conditioning transform to every
    point, in homogeneous coordinates. *)
Definition ApplyTransformationToPoints (points : Points) (T : Matx33d) : Points :=
  map (apply_to_point T) points.

(** [EXPECT_NEAR(a, b, tol)] *)
Definition near (a b tol : R) : Prop := Rabs (a - b) <= tol.

(** What the test checks of the normalized points. *)
Definition conditioned (normalized_points : Points) : Prop :=
  let '(mean, variance) := MeanAndVarianceAlongRows normalized_points in
  near 0 (fst mean) 1e-8 /\ near 0 (snd mean) 1e-8 /\
  near 2 (fst variance) 1e-8 /\ near 2 (snd variance) 1e-8.

(** The point set of the test: columns (0,0), (0,2), (1,1), (1,3). *)
Definition test_points : Points := [(0, 0); (0, 2); (1, 1); (1, 3)].

(** Any transform of the shape the spec describes: one scale [s] for both
    rows after a translation by [(tx, ty)]. *)
Definition uniform_conditioning (s tx ty : R) : Matx33d :=
  mul (diag s s 1) (translate tx ty).


End Conditioning.

(** ** HomogeneousToEuclidean (projection.cpp) *)

Module Projection.
Local Open Scope nat_scope.

(** The depth of a [cv::Mat] and the size in bytes of one element. *)
Inductive Depth : Type :=
| CV_8U | CV_8S | CV_16U | CV_16S | CV_32S | CV_32F | CV_64F.

Definition elemSize (d : Depth) : nat :=
  match d with
  | CV_8U | CV_8S => 1
  | CV_16U | CV_16S => 2
  | CV_32S | CV_32F => 4
  | CV_64F => 8
  end.

(** A single-channel [cv::Mat]: the header and the buffer behind its data
    pointer, element by element.  [step] is what [Mat::step] converts to:
    the distance between two rows in BYTES. *)
Record Mat : Type := mkMat {
  rows : nat;
  cols : nat;
  depth : Depth;
  step : nat;
  data : list R
}.

(** The two instantiations of the template. *)
Inductive Scalar : Type := float | double.

Definition sizeof (T : Scalar) : nat :=
  match T with float => 4 | double => 8 end.

Definition depth_of (T : Scalar) : Depth :=
  match T with float => CV_32F | double => CV_64F end.

Definition Depth_eqb (a b : Depth) : bool :=
  match a, b with
  | CV_8U, CV_8U | CV_8S, CV_8S | CV_16U, CV_16U | CV_16S, CV_16S
  | CV_32S, CV_32S | CV_32F, CV_32F | CV_64F, CV_64F => true
  | _, _ => false
  end.

(** Element (j, i) of a matrix: [step] bytes per row. *)
Definition at_ (M : Mat) (j i : nat) : option R :=
  data M !! (j * (step M / elemSize (depth M)) + i).

(** [Mat_<T>(m)] for rows [r0 .. r0+n-1] of [M]: the same buffer when [M]
    already holds [T], a converted continuous copy otherwise.  The result is
    the buffer as [T*] sees it, the offset of the first row in it and the
    step in bytes. *)
Definition Mat_ (T : Scalar) (M : Mat) (r0 n : nat) : list R * nat * nat :=
  if Depth_eqb (depth M) (depth_of T) then
    (data M, r0 * (step M / sizeof T), step M)
  else
    (flat_map (fun j => omap (at_ M j) (seq 0 (cols M))) (seq r0 n),
     0, cols M * sizeof T).

Section Reinterpretation.

(** The buffers hold one real number per element.  The function writes
    through [_x.ptr<T>(0)], a [T*] into the buffer of [_x], whatever [_x]
    holds: when [_x] has another depth than [T], the bytes of a [T] value
    land in the elements that lie there.  [pun T v D old k] is what an
    element of depth [D] that held [old] becomes when the bytes of the [T]
    value [v] are stored over it, the element beginning [k] bytes after the
    first byte of the value ([k] is negative when the value begins inside
    the element).  Nothing is assumed of it. *)
Variable pun : Scalar -> R -> Depth -> R -> Z -> R.

(** [*p = v] for a [T* p] that points [ptr] elements of [T] past the start
    of a buffer of elements of depth [D]: the value takes the bytes from
    [ptr * sizeof T] on.  [None]: one of them is outside the buffer. *)
Definition store (T : Scalar) (D : Depth) (buf : list R) (ptr : nat) (v : R)
    : option (list R) :=
  let first := ptr * sizeof T in
  let beyond := first + sizeof T in
  if beyond <=? List.length buf * elemSize D then
    if Depth_eqb D (depth_of T) then Some (<[ptr := v]> buf)
    else
      Some (imap (fun j old =>
                    if (first <? (j + 1) * elemSize D)
                       && (j * elemSize D <? beyond)
                    then pun T v D old
                           (Z.of_nat (j * elemSize D) - Z.of_nat first)%Z
                    else old) buf)
  else None.

(** The inner [for]: [n] rounds, the two column pointers advancing by
    [X_step] and [x_step] ELEMENTS of [T], which is what [ptr += step] does
    on a [T*].  Every round reads [*X_col_ptr] and [*h_ptr] and writes
    [*x_col_ptr], into a buffer of elements of depth [D]. *)
Fixpoint column_loop (T : Scalar) (D : Depth) (Xd hd : list R)
    (h_ptr X_step x_step : nat)
    (n : nat) (X_col_ptr x_col_ptr : nat) (xd : list R) : option (list R) :=
  match n with
  | O => Some xd
  | S n' =>
      match Xd !! X_col_ptr, hd !! h_ptr with
      | Some v, Some h =>
          match store T D xd x_col_ptr (v / h)%R with
          | Some xd' =>
              column_loop T D Xd hd h_ptr X_step x_step n'
                (X_col_ptr + X_step) (x_col_ptr + x_step) xd'
          | None => None
          end
      | _, _ => None
      end
  end.

(** The outer [for] over the [n] columns still to do.  The inner loop runs
    until [x_col_ptr] meets [x_col_ptr + d * step]: [d] rounds, or none when
    the step is 0. *)
Fixpoint row_loop (T : Scalar) (D : Depth) (Xd hd : list R)
    (X_step x_step d : nat)
    (n : nat) (h_ptr X_ptr x_ptr : nat) (xd : list R) : option (list R) :=
  match n with
  | O => Some xd
  | S n' =>
      let rounds := if x_step =? 0 then 0 else d in
      match column_loop T D Xd hd h_ptr X_step x_step rounds X_ptr x_ptr xd
      with
      | None => None
      | Some xd' =>
          row_loop T D Xd hd X_step x_step d n'
            (S h_ptr) (S X_ptr) (S x_ptr) xd'
      end
  end.

(** [HomogeneousToEuclidean_<T>(_X, _x)].  [x] is the caller's matrix: the
    function does not allocate it, and does not look at its depth.
    [rowRange(0, -1)] on a matrix without rows fails OpenCV's assertion.
    The buffers of [_X] and [_x] are taken to be disjoint. *)
Definition HomogeneousToEuclidean_ (T : Scalar) (X x : Mat) : result Mat :=
  match rows X with
  | O => Fail AssertionFailed
  | S d =>
      let '(Xd, X_ptr, X_step) := Mat_ T X 0 d in
      let '(hd, h_ptr, _) := Mat_ T X d 1 in
      match row_loop T (depth x) Xd hd X_step (step x) d (cols X)
              h_ptr X_ptr 0 (data x) with
      | None => Fail OutOfBounds
      | Some xd => Ok (mkMat (rows x) (cols x) (depth x) (step x) xd)
      end
  end.

Definition HomogeneousToEuclidean (X x : Mat) : result Mat :=
  if Depth_eqb (depth X) CV_32F then HomogeneousToEuclidean_ float X x
  else HomogeneousToEuclidean_ double X x.

End Reinterpretation.

(** A freshly allocated matrix: its rows follow one another in the buffer. *)
Definition continuous (r c : nat) (d : Depth) (elems : list R) : Mat :=
  mkMat r c d (c * elemSize d) elems.

(** Homogeneous 2D points in a 3xN matrix of doubles, and the 2xN matrix
    that is to receive them.  [X_3x1] and [x_2x1] are freshly allocated;
    [X_roi] and [x_roi] are the same two matrices as the first rows of
    nine-row buffers. *)
Definition X_3x1 : Mat := continuous 3 1 CV_64F [2; 4; 2]%R.
Definition x_2x1 : Mat := continuous 2 1 CV_64F [0; 0]%R.

Definition X_roi : Mat :=
  mkMat 3 1 CV_64F 8 [2; 4; 2; 0; 0; 0; 0; 0; 7]%R.
Definition x_roi : Mat :=
  mkMat 2 1 CV_64F 8 [0; 0; 0; 0; 0; 0; 0; 0; 0]%R.

(** A 2xN matrix of floats holding 1D homogeneous points. *)
Definition X_2x2 : Mat := continuous 2 2 CV_32F [6; 8; 2; 4]%R.
Definition x_1x2 : Mat := continuous 1 2 CV_32F [0; 0]%R.

(** A reinterpretation to run examples with. *)
Definition sample_pun : Scalar -> R -> Depth -> R -> Z -> R :=
  fun _ v _ _ _ => v.

End Projection.

(** ** The stabilize tool (stabilize.cc) *)

Module Stabilizer.
Import SizeT StdVector StdString Folder Matx.

Inductive eGEOMETRIC_TRANSFORMATION : Type :=
| EUCLIDEAN | SIMILARITY | AFFINE | HOMOGRAPHY.

(** [Matches::ImageID] is an [int]. *)
Definition ImageID : Type := Z.

(** One stabilized frame: the cumulative transform [H] in force when the
    frame was handled, and the file written for it ([None] when the image
    was empty or the output name could not be formed). *)
Record Frame (Image : Type) : Type := mkFrame {
  frame_H : Matx33d;
  frame_written : option (string * Image)
}.

Arguments mkFrame {Image} _ _.
Arguments frame_H {Image} _.
Arguments frame_written {Image} _.

(** The command-line flags. *)
Record Flags : Type := mkFlags {
  FLAGS_m : string;
  FLAGS_transformation : Z;
  FLAGS_draw_lines : bool;
  FLAGS_of : string;
  FLAGS_os : string
}.

(** [std::sort] on a [std::vector<std::string>]: the strings in ascending
    lexicographic order of their bytes. *)
Fixpoint insert_sorted (x : string) (l : list string) : list string :=
  match l with
  | [] => [x]
  | y :: l' => if String.leb x y then x :: l else y :: insert_sorted x l'
  end.

Definition sort (l : list string) : list string :=
  fold_right insert_sorted [] l.

Section Tool.

(** *** libmv and OpenCV code outside the sources

    The point matrices, the match graph, the four robust estimators and the
    image functions enter as parameters.  Of these calls the development
    assumes only that they return and change nothing but their result. *)

(** [libmv::Mat], a 2xN point matrix, and its [cols()]. *)
Variable Mat : Type.
Variable cols : Mat -> Z.

(** [libmv::Mat3] and its element access [mat3(j, i)]. *)
Variable Mat3 : Type.
Variable coeff : Mat3 -> nat -> nat -> R.

(** The content of a [Mat3] that was declared and never assigned. *)
Variable uninitialized : Mat3.

(** What slot [k] of freshly reserved vector storage holds before a
    transform is written to it. *)
Variable unwritten : nat -> Matx33d.

(** [Matches]; [get_images] lists its [std::set<ImageID>] in iteration
    order. *)
Variable Matches : Type.
Variable get_images : Matches -> list ImageID.

(** [TwoViewPointMatchMatrices(matches, id1, id2, &xs2)]: [xs2[0]] and
    [xs2[1]]. *)
Variable TwoViewPointMatchMatrices : Matches -> ImageID -> ImageID -> Mat * Mat.

(** [XFromCorrespondencesNPointRobust(x1, x2, max_error, &M, NULL,
    outliers_prob)]: the fourth argument is the matrix [M] points to on
    entry, the result is what it holds on return. *)
Definition RobustEstimator : Type := Mat -> Mat -> R -> Mat3 -> R -> Mat3.

Variable Euclidean2DFromCorrespondences2PointRobust : RobustEstimator.
Variable Similarity2DFromCorrespondences2PointRobust : RobustEstimator.
Variable Affine2DFromCorrespondences3PointRobust : RobustEstimator.
Variable Homography2DFromCorrespondences4PointRobust : RobustEstimator.

Variable ImportMatchesFromTxt : string -> Matches.

(** Images: [cv::imread], [ImageSequence::GetImage] on the sequence made
    from the files, [Mat::empty], the four [cv::line] calls that draw the
    bounds, and [cv::warpPerspective].  The last is called as
    [cv::warpPerspective(image, H, image_stab, image.size())] on an
    [image_stab] declared the line before; [warpPerspective image H] is what
    [image_stab] holds when the call is over, the value handed to
    [cv::imwrite].  Which of the arguments the library takes for the
    transform and which for the destination is not looked into; like the
    other calls this one is taken to return and to leave [H] as it
    was. *)
Variable Image : Type.
Variable imread : string -> Image.
Variable GetImage : list string -> nat -> Image.
Variable empty : Image -> bool.
Variable draw_bounds : Image -> Image.
Variable warpPerspective : Image -> Matx33d -> Image.

(** *** MatToMatx (lines 71-79) *)

Definition MatToMatx (mat3 : Mat3) : Matx33d :=
  Matx33 (coeff mat3 0 0) (coeff mat3 0 1) (coeff mat3 0 2)
         (coeff mat3 1 0) (coeff mat3 1 1) (coeff mat3 1 2)
         (coeff mat3 2 0) (coeff mat3 2 1) (coeff mat3 2 2).

(** The number of correspondences of a pair of images, [xs2[0].cols()],
    and the test made on it. *)
Definition correspondences (matches : Matches) (pair : ImageID * ImageID) : Z :=
  cols (fst (TwoViewPointMatchMatrices matches (fst pair) (snd pair))).

Definition enough (minimal : Z) (matches : Matches)
    (pair : ImageID * ImageID) : bool :=
  (minimal <=? correspondences matches pair)%Z.

(** *** The chain composers (lines 123-260)

    The four functions are the same loop; they differ in the count tested
    and in the estimator called.  [relative_loop] is that loop from the
    point where [prev_image_iter] is at [prev] and [rest] is what
    [image_iter] has still to visit.  Its state is the matrix [E] declared
    before the loop and the vector [Es]; alongside, it records which pair
    of images each transform it pushed was estimated from. *)
Fixpoint relative_loop (minimal : Z) (robust : RobustEstimator)
    (matches : Matches) (outliers_prob max_error_2d : R)
    (prev : ImageID) (rest : list ImageID)
    (E : Mat3) (Es : list Matx33d) (pairs : list (ImageID * ImageID))
    : list Matx33d * list (ImageID * ImageID) :=
  match rest with
  | [] => (Es, pairs)
  | cur :: rest' =>
      let xs2 := TwoViewPointMatchMatrices matches prev cur in
      if (minimal <=? cols (fst xs2))%Z then
        let E' := robust (fst xs2) (snd xs2) max_error_2d E outliers_prob in
        relative_loop minimal robust matches outliers_prob max_error_2d
          cur rest' E' (Es ++ [MatToMatx E']) (pairs ++ [(prev, cur)])
      else
        relative_loop minimal robust matches outliers_prob max_error_2d
          cur rest' E Es pairs
  end.

(** Before the loop [image_iter] is stepped past [begin()]: with no image at
    all that leaves the set. *)
Definition relative_matrices (minimal : Z) (robust : RobustEstimator)
    (matches : Matches) (Es : list Matx33d) (outliers_prob max_error_2d : R)
    : result (list Matx33d * list (ImageID * ImageID)) :=
  match get_images matches with
  | [] => Fail OutOfBounds
  | first :: rest =>
      Ok (relative_loop minimal robust matches outliers_prob max_error_2d
            first rest uninitialized Es [])
  end.

Definition ComputeRelativeEuclideanMatrices :=
  relative_matrices 2 Euclidean2DFromCorrespondences2PointRobust.

Definition ComputeRelativeSimilarityMatrices :=
  relative_matrices 2 Similarity2DFromCorrespondences2PointRobust.

Definition ComputeRelativeAffineMatrices :=
  relative_matrices 3 Affine2DFromCorrespondences3PointRobust.

Definition ComputeRelativeHomographyMatrices :=
  relative_matrices 4 Homography2DFromCorrespondences4PointRobust.

(** The [switch] of [main], for the four named values of the flag. *)
Definition ComputeRelativeMatrices (t : eGEOMETRIC_TRANSFORMATION) :=
  match t with
  | EUCLIDEAN => ComputeRelativeEuclideanMatrices
  | SIMILARITY => ComputeRelativeSimilarityMatrices
  | AFFINE => ComputeRelativeAffineMatrices
  | HOMOGRAPHY => ComputeRelativeHomographyMatrices
  end.

(** *** Stabilize (lines 272-319) *)

(** The name of the stabilized file: the path up to its last dot moved to
    the output folder, the suffix, and the path from its last dot on.  The
    second [substr] starts at [npos] when there is no dot, and throws. *)
Definition output_name (WIN32 : bool) (flags : Flags) (file : string)
    : option string :=
  match substr file 0 (rfind file dot),
        substr file (rfind file dot) (size file) with
  | Some stem, Some extension =>
      Some (ReplaceFolder WIN32 stem (FLAGS_of flags)
            ++ FLAGS_os flags ++ extension)%string
  | _, _ => None
  end.

(** The [for] loop from frame [i] on; [rest] are the files of the frames
    still to do, [H] is the cumulative transform of the frame before.  [Hs]
    are the elements of the chain and [reserved] what its allocation holds
    behind them: [Hs[i - 1]] is not checked against [Hs.size()]. *)
Fixpoint Stabilize_loop (WIN32 : bool) (flags : Flags)
    (image_files : list string) (Hs reserved : list Matx33d)
    (draw_lines : bool)
    (rest : list string) (i : nat) (H : Matx33d)
    : list (Frame Image) * status :=
  match rest with
  | [] => ([], Done)
  | file :: rest' =>
      let H' :=
        if (0 <? i)%nat then
          match unchecked Hs reserved (i - 1)%nat with
          | Some Hi => Some (mul (inv Hi) H)
          | None => None
          end
        else Some H in
      match H' with
      | None => ([], Stopped OutOfBounds)
      | Some H =>
          let image := GetImage image_files i in
          if empty image then
            let '(frames, st) :=
              Stabilize_loop WIN32 flags image_files Hs reserved draw_lines
                rest' (S i) H in
            (mkFrame H None :: frames, st)
          else
            let image := if draw_lines then draw_bounds image else image in
            let image_stab := warpPerspective image H in
            match output_name WIN32 flags file with
            | None => ([mkFrame H None], Stopped OutOfRangeException)
            | Some name =>
                let '(frames, st) :=
                  Stabilize_loop WIN32 flags image_files Hs reserved
                    draw_lines rest' (S i) H in
                (mkFrame H (Some (name, image_stab)) :: frames, st)
            end
      end
  end.

(** [NDEBUG] tells whether [assert] was compiled out.  The assertion
    compares in [size_t].  [image_files[0]] is read before the loop, with
    no check that there is a file: [files_reserved] is what the allocation
    of [image_files] holds behind its elements, as [reserved] is for
    [Hs]. *)
Definition Stabilize (NDEBUG WIN32 : bool) (flags : Flags)
    (image_files files_reserved : list string) (Hs reserved : list Matx33d)
    (draw_lines : bool)
    : list (Frame Image) * status :=
  if negb NDEBUG
     && negb (Z.of_nat (List.length image_files)
              =? sub (Z.of_nat (List.length Hs)) 1)%Z
  then ([], Stopped AssertionFailed)
  else
    match unchecked image_files files_reserved 0 with
    | None => ([], Stopped OutOfBounds)
    | Some first =>
        let imageArrayBytes := imread first in
        Stabilize_loop WIN32 flags image_files Hs reserved draw_lines
          image_files 0 eye
    end.

(** [Es->reserve(matches.NumImages() - 1)], seen from [main]: its vector
    is empty and owns no storage when the composer is called, so the
    composer allocates room for NumImages - 1 transforms (none for a single
    image); it appends no more than that, so the storage is never replaced,
    and the slots it does not fill keep what the allocation held.  This is
    what lies behind the chain [Hs] the composer returns.  NumImages is the
    size of the set [get_images] lists.  A library is free to reserve more
    than it is asked for; what is proved of [main] needs only that it does
    not reserve less. *)
Definition reserved_behind (matches : Matches) (Hs : list Matx33d)
    : list Matx33d :=
  map unwritten
    (seq (List.length Hs)
         (List.length (get_images matches) - 1 - List.length Hs)).

(** *** main (lines 321-369)

    [argv] is what [ParseCommandLineFlags] leaves: the program name and the
    image files.  A flag value outside 0..3 leaves [Hs] empty and without
    storage.  Of the storage of [files] nothing is modelled behind the
    elements: with no file there is none, and with files neither
    [image_files[0]] nor the loop of [Stabilize] reads there. *)
Definition transformation_of_flag (t : Z) : option eGEOMETRIC_TRANSFORMATION :=
  if (t =? 0)%Z then Some EUCLIDEAN
  else if (t =? 1)%Z then Some SIMILARITY
  else if (t =? 2)%Z then Some AFFINE
  else if (t =? 3)%Z then Some HOMOGRAPHY
  else None.

Definition main (NDEBUG WIN32 : bool) (flags : Flags) (argv : list string)
    : list (Frame Image) * status :=
  let files := sort (tail argv) in
  let matches := ImportMatchesFromTxt (FLAGS_m flags) in
  let Hs :=
    match transformation_of_flag (FLAGS_transformation flags) with
    | Some t =>
        match ComputeRelativeMatrices t matches [] 1e-2 1 with
        | Ok (Hs, _) => Ok (Hs, reserved_behind matches Hs)
        | Fail f => Fail f
        end
    | None => Ok ([], [])
    end in
  match Hs with
  | Fail f => ([], Stopped f)
  | Ok (Hs, reserved) =>
      Stabilize NDEBUG WIN32 flags files [] Hs reserved
        (FLAGS_draw_lines flags)
  end.

End Tool.

(** The consecutive pairs of a sequence of images. *)
Fixpoint consecutive_pairs (prev : ImageID) (rest : list ImageID)
    : list (ImageID * ImageID) :=
  match rest with
  | [] => []
  | cur :: rest' => (prev, cur) :: consecutive_pairs cur rest'
  end.

(** "The i-th transform relates the i-th and the (i+1)-th image": [pairs]
    lists, for each transform of the chain, the two images it was estimated
    from. *)
Definition relates_in_order (images : list ImageID)
    (pairs : list (ImageID * ImageID)) : Prop :=
  forall (i : nat) (a b : ImageID),
    pairs !! i = Some (a, b) ->
    images !! i = Some a /\ images !! S i = Some b.

(** The left-to-right fold of the inverses of a chain: every pairwise
    motion undone in turn, starting from the identity. *)
Definition undo (H T : Matx33d) : Matx33d := mul (inv T) H.

Definition fold_inverses (Ts : list Matx33d) : Matx33d :=
  fold_left undo Ts eye.

(** The minimal-sample cardinality of a family, as the spec lists them. *)
Definition minimal_cardinality (t : eGEOMETRIC_TRANSFORMATION) : Z :=
  match t with
  | EUCLIDEAN => 2
  | SIMILARITY => 2
  | AFFINE => 3
  | HOMOGRAPHY => 4
  end.

End Stabilizer.

(** ** Vocabulary for the further properties *)

Module Vocabulary.
Import Matx Stabilizer.

(** The product T0 T1 ... of a chain, in the order of the chain. *)
Definition chain_product (Ts : list Matx33d) : Matx33d :=
  fold_left mul Ts eye.

(** The matrices a robust estimator writes when it is called on the given
    pairs one after the other, each call starting from the matrix the call
    before left behind. *)
Fixpoint estimates {Mat Mat3 Matches : Type}
    (TwoViewPointMatchMatrices : Matches -> ImageID -> ImageID -> Mat * Mat)
    (robust : RobustEstimator Mat Mat3)
    (matches : Matches) (outliers_prob max_error_2d : R)
    (E : Mat3) (pairs : list (ImageID * ImageID)) : list Mat3 :=
  match pairs with
  | [] => []
  | (a, b) :: pairs' =>
      let xs2 := TwoViewPointMatchMatrices matches a b in
      let E' := robust (fst xs2) (snd xs2) max_error_2d E outliers_prob in
      E' :: estimates TwoViewPointMatchMatrices robust matches
              outliers_prob max_error_2d E' pairs'
  end.

(** The part of a path after its last slash, all of it when it has none. *)
Definition file_part (s : string) : string :=
  match StdString.rfind_from s StdString.slash 0 with
  | Some j => StdString.skip (S j) s
  | None => s
  end.

(** The order [std::sort] puts the file names in. *)
Definition le (a b : string) : Prop := String.leb a b = true.

(** The estimator and the count that go with a family. *)
Definition estimator_of {Mat Mat3 : Type}
    (euclidean similarity affine homography : RobustEstimator Mat Mat3)
    (t : eGEOMETRIC_TRANSFORMATION) : RobustEstimator Mat Mat3 :=
  match t with
  | EUCLIDEAN => euclidean
  | SIMILARITY => similarity
  | AFFINE => affine
  | HOMOGRAPHY => homography
  end.

End Vocabulary.

(** ** A small run of the tool *)

(** Three frames and a match set in which the first pair of images has a
    single correspondence.  A point matrix is represented by its number of
    columns, an image by the number of its frame, and every estimator
    answers the identity. *)
Module Sample.
Import Matx Stabilizer.
Local Open Scope string_scope.

Record Matches : Type := mkMatches {
  images : list ImageID;
  count : ImageID -> ImageID -> Z
}.

Definition coeff (m : Matx33d) (j i : nat) : R :=
  match j, i with
  | 0, 0 => m00 m | 0, 1 => m01 m | 0, 2 => m02 m
  | 1, 0 => m10 m | 1, 1 => m11 m | 1, 2 => m12 m
  | 2, 0 => m20 m | 2, 1 => m21 m | 2, 2 => m22 m
  | _, _ => 0%R
  end%nat.

Definition TwoViewPointMatchMatrices (m : Matches) (a b : ImageID) : Z * Z :=
  (count m a b, count m a b).

Definition estimator : Z -> Z -> R -> Matx33d -> R -> Matx33d :=
  fun _ _ _ _ _ => eye.

(** Images 0, 1, 2; one correspondence between 0 and 1, five between 1
    and 2. *)
Definition gap_matches : Matches :=
  mkMatches [0; 1; 2]%Z
    (fun a b => if (a =? 0)%Z then 1%Z else 5%Z).

(** The same images with five correspondences between any two. *)
Definition full_matches : Matches :=
  mkMatches [0; 1; 2]%Z (fun _ _ => 5%Z).

(** The default flags of the tool. *)
Definition flags : Flags := mkFlags "matches.txt" 1 false "./" "_stab".

Definition argv : list string := ["stabilize"; "f2.png"; "f0.png"; "f1.png"].

Definition files : list string := ["f0.png"; "f1.png"; "f2.png"].

Definition compose (m : Matches) (t : eGEOMETRIC_TRANSFORMATION) :=
  ComputeRelativeMatrices Z (fun n => n) Matx33d coeff zeros
    Matches images TwoViewPointMatchMatrices
    estimator estimator estimator estimator t m [] 1e-2 1.

(** An estimator whose answer tells the pair it was called on: the number
    of correspondences is its first entry. *)
Definition counting : Z -> Z -> R -> Matx33d -> R -> Matx33d :=
  fun x1 _ _ _ _ => Matx33 (IZR x1) 0 0 0 1 0 0 0 1.

Definition compose_counting (m : Matches) (t : eGEOMETRIC_TRANSFORMATION) :=
  ComputeRelativeMatrices Z (fun n => n) Matx33d coeff zeros
    Matches images TwoViewPointMatchMatrices
    counting counting counting counting t m [] 1e-2 1.

(** A matrix with determinant 2. *)
Definition twice : Matx33d := Matx33 2 0 0 0 1 0 0 0 1.

(** Reserved storage holds [twice] wherever nothing was written. *)
Definition unwritten : nat -> Matx33d := fun _ => twice.

(** A chain with nothing behind it, and a chain with [reserved] behind
    it. *)
Definition stabilize (NDEBUG : bool) (Hs : list Matx33d) :=
  Stabilize nat (fun _ => O) (fun _ i => i) (fun _ => false)
    (fun image => image) (fun image _ => image)
    NDEBUG false flags files [] Hs [] false.

Definition stabilize_reserved (NDEBUG : bool) (Hs reserved : list Matx33d) :=
  Stabilize nat (fun _ => O) (fun _ i => i) (fun _ => false)
    (fun image => image) (fun image _ => image)
    NDEBUG false flags files [] Hs reserved false.

Definition run (m : Matches) (NDEBUG : bool) :=
  main Z (fun n => n) Matx33d coeff zeros unwritten
    Matches images TwoViewPointMatchMatrices
    estimator estimator estimator estimator (fun _ => m)
    nat (fun _ => O) (fun _ i => i) (fun _ => false)
    (fun image => image) (fun image _ => image)
    NDEBUG false flags argv.

End Sample.

(** * Part II: properties *)

(** ** Strings *)

Module StdStringFacts.
Import SizeT StdString.
Local Open Scope string_scope.

Lemma prefix_char (c a : ascii) (s : string) :
  prefix (String c EmptyString) (String a s) = Ascii.eqb a c.
Proof.
  simpl. destruct (ascii_dec c a) as [->|Hne].
  - rewrite Ascii.eqb_refl. now destruct s.
  - symmetry. apply Ascii.eqb_neq. congruence.
Qed.

Lemma rfind_from_absent (c : ascii) (s : string) (i : nat) :
  occurs c s = false -> rfind_from s (String c EmptyString) i = None.
Proof.
  revert i. induction s as [|a s IH]; intros i Hocc.
  - reflexivity.
  - cbn [occurs] in Hocc. apply orb_false_elim in Hocc as [Ha Hs].
    cbn [rfind_from]. rewrite (IH (S i) Hs), prefix_char, Ha. reflexivity.
Qed.

Lemma rfind_from_last (c : ascii) (pre post : string) (i : nat) :
  occurs c post = false ->
  rfind_from (pre ++ String c post) (String c EmptyString) i
  = Some (i + String.length pre)%nat.
Proof.
  intros Hpost. revert i. induction pre as [|a pre IH]; intros i.
  - cbn [append rfind_from String.length].
    rewrite (rfind_from_absent c post (S i) Hpost), prefix_char, Ascii.eqb_refl.
    f_equal. lia.
  - cbn [append rfind_from String.length]. rewrite IH. f_equal. lia.
Qed.

Lemma occurs_split_last (c : ascii) (s : string) :
  occurs c s = true ->
  exists pre post, s = pre ++ String c post /\ occurs c post = false.
Proof.
  induction s as [|a s IH]; intros Hocc.
  - discriminate.
  - destruct (occurs c s) eqn:Hs.
    + destruct (IH eq_refl) as (pre & post & -> & Hpost).
      exists (String a pre), post. split; [reflexivity | exact Hpost].
    + cbn [occurs] in Hocc. rewrite Hs, orb_false_r in Hocc.
      apply Ascii.eqb_eq in Hocc. subst a.
      exists EmptyString, s. split; [reflexivity | exact Hs].
Qed.

Lemma skip_app (pre t : string) : skip (String.length pre) (pre ++ t) = t.
Proof. induction pre as [|a pre IH]; [now destruct t | exact IH]. Qed.

Lemma length_app (a b : string) :
  String.length (a ++ b) = (String.length a + String.length b)%nat.
Proof. induction a as [|x a IH]; cbn; [reflexivity | now rewrite IH]. Qed.

Lemma ends_with_app_char (c : ascii) (p : string) :
  ends_with c (p ++ String c EmptyString) = true.
Proof.
  induction p as [|a p IH].
  - cbn. apply Ascii.eqb_refl.
  - cbn [append ends_with]. destruct (p ++ String c EmptyString) eqn:E.
    + destruct p; discriminate.
    + exact IH.
Qed.

Lemma ends_with_app_longer (c a : ascii) (p q : string) :
  ends_with c (p ++ String a q) = ends_with c (String a q).
Proof.
  induction p as [|b p IH].
  - reflexivity.
  - cbn [append]. rewrite <- IH. cbn [ends_with].
    destruct (p ++ String a q) eqn:E; [destruct p; discriminate | reflexivity].
Qed.

Lemma ends_with_occurs (c : ascii) (s : string) :
  ends_with c s = true -> occurs c s = true.
Proof.
  induction s as [|a s IH]; intros H; [discriminate|].
  cbn [occurs]. destruct s as [|b s].
  - cbn in H. now rewrite H.
  - rewrite (IH H). apply orb_true_r.
Qed.

(** [rfind] of a one-character pattern on a string that fits in memory. *)
Lemma rfind_absent (c : ascii) (s : string) :
  occurs c s = false -> rfind s (String c EmptyString) = npos.
Proof. intros H. unfold rfind. now rewrite rfind_from_absent. Qed.

Lemma rfind_last (c : ascii) (pre post : string) :
  occurs c post = false ->
  rfind (pre ++ String c post) (String c EmptyString)
  = Z.of_nat (String.length pre).
Proof. intros H. unfold rfind. now rewrite rfind_from_last. Qed.

(** The test [nf.rfind(sep) != nf.size() - 1] asks whether [nf] fails to
    end with the separator. *)
Lemma rfind_is_last_position (c : ascii) (nf : string) :
  nf <> EmptyString -> (size nf < npos)%Z ->
  (rfind nf (String c EmptyString) =? sub (size nf) 1)%Z = ends_with c nf.
Proof.
  intros Hne Hsz.
  assert (Hlen : (1 <= size nf)%Z).
  { unfold size. destruct nf; [congruence | cbn [String.length]; lia]. }
  assert (Hsub : sub (size nf) 1 = (size nf - 1)%Z).
  { unfold sub, wrap. apply Z.mod_small. unfold npos in Hsz. lia. }
  rewrite Hsub.
  destruct (occurs c nf) eqn:Hocc.
  - destruct (occurs_split_last c nf Hocc) as (pre & post & -> & Hpost).
    rewrite (rfind_last c pre post Hpost).
    unfold size. rewrite length_app. cbn [String.length].
    destruct post as [|b post].
    + rewrite ends_with_app_char. apply Z.eqb_eq. cbn [String.length]. lia.
    + replace (pre ++ String c (String b post))
        with ((pre ++ String c EmptyString) ++ String b post).
      2:{ clear. induction pre as [|x pre IH]; cbn; [reflexivity | now rewrite IH]. }
      rewrite ends_with_app_longer.
      destruct (ends_with c (String b post)) eqn:He.
      * apply ends_with_occurs in He. congruence.
      * apply Z.eqb_neq. cbn [String.length]. lia.
  - rewrite (rfind_absent c nf Hocc).
    destruct (ends_with c nf) eqn:He.
    + apply ends_with_occurs in He. congruence.
    + apply Z.eqb_neq. lia.
Qed.

End StdStringFacts.

(** ** ReplaceFolder *)

Module FolderFacts.
Import SizeT StdString StdStringFacts Folder.
Local Open Scope string_scope.

Lemma eqb_empty (s : string) : s <> "" -> String.eqb s "" = false.
Proof. intros H. apply String.eqb_neq. exact H. Qed.

Lemma replace0_after_separator (c : ascii) (pre post nf : string) :
  (size (pre ++ String c post) < npos)%Z ->
  replace0 (pre ++ String c post) (add (Z.of_nat (String.length pre)) 1) nf
  = nf ++ post.
Proof.
  intros Hsz. unfold replace0. f_equal.
  unfold size in *. rewrite length_app in *. cbn [String.length] in *.
  unfold npos in Hsz.
  assert (Hadd : add (Z.of_nat (String.length pre)) 1
                 = Z.of_nat (S (String.length pre))).
  { unfold add, wrap. rewrite Z.mod_small; lia. }
  rewrite Hadd, Z.min_l by lia. rewrite Nat2Z.id.
  change (S (String.length pre)) with (String.length (String c pre)).
  replace (pre ++ String c post) with ((pre ++ String c "") ++ post).
  2:{ clear. induction pre as [|x pre IH]; cbn; [reflexivity | now rewrite IH]. }
  replace (String.length (String c pre))
    with (String.length (pre ++ String c "")).
  2:{ rewrite length_app. cbn. lia. }
  apply skip_app.
Qed.

(** The folder part of the result, on either build. *)
Lemma folder_part (c : ascii) (nf : string) :
  nf <> "" -> (size nf < npos)%Z ->
  (if negb (rfind nf (String c "") =? sub (size nf) 1)%Z
   then nf ++ String c "" else nf) = with_separator c nf.
Proof.
  intros Hne Hsz. rewrite (rfind_is_last_position c nf Hne Hsz).
  unfold with_separator. now destruct (ends_with c nf).
Qed.

Lemma position_is_not_npos (pre rest : string) :
  (size (pre ++ rest) < npos)%Z ->
  (Z.of_nat (String.length pre) =? npos)%Z = false.
Proof.
  intros Hsz. apply Z.eqb_neq. unfold size in Hsz.
  rewrite length_app in Hsz. lia.
Qed.

(** C10, amended. ReplaceFolder(s, "") is s on either build.  For a
    non-empty new_folder, on the build without WIN32 the result is
    new_folder, completed by a slash unless it ends with one, followed by
    what comes after the last slash of s, or by all of s when s has no
    slash.  On the build with WIN32 the folder is completed by a backslash
    unless it ends with one, and what is kept of s is what comes after its
    last backslash; only when s has no backslash is it what comes after its
    last slash, or all of s when it has neither.  Strings are those of a
    64-bit machine: shorter than npos. *)
Theorem ReplaceFolder_spec (WIN32 : bool) (s new_folder : string) :
  (size s < npos)%Z -> (size new_folder < npos)%Z ->
  ReplaceFolder WIN32 s "" = s /\
  (new_folder <> "" ->
   let c := if WIN32 then backslash_char else slash_char in
   (forall pre post,
      s = pre ++ String c post -> occurs c post = false ->
      ReplaceFolder WIN32 s new_folder = with_separator c new_folder ++ post) /\
   (occurs c s = false ->
    if WIN32 then
      (forall pre post,
         s = pre ++ slash ++ post -> occurs slash_char post = false ->
         ReplaceFolder WIN32 s new_folder
         = with_separator c new_folder ++ post) /\
      (occurs slash_char s = false ->
       ReplaceFolder WIN32 s new_folder = with_separator c new_folder ++ s)
    else
      ReplaceFolder WIN32 s new_folder = with_separator c new_folder ++ s)).
Proof.
  intros Hs Hnf. split; [now destruct WIN32|].
  intros Hne c. unfold ReplaceFolder. rewrite (eqb_empty _ Hne).
  cbv zeta. unfold slash, backslash. subst c.
  destruct WIN32.
  - rewrite (folder_part backslash_char new_folder Hne Hnf). split.
    + intros pre post -> Hpost.
      rewrite (rfind_last backslash_char pre post Hpost).
      rewrite !(position_is_not_npos pre _ Hs). cbn [negb].
      apply replace0_after_separator. exact Hs.
    + intros Hnone. split.
      * intros pre post -> Hpost. cbn [append] in *.
        rewrite (rfind_absent backslash_char _ Hnone), Z.eqb_refl.
        rewrite (rfind_last slash_char pre post Hpost).
        rewrite !(position_is_not_npos pre _ Hs). cbn [negb].
        apply replace0_after_separator. exact Hs.
      * intros Hnone'.
        rewrite (rfind_absent backslash_char s Hnone), Z.eqb_refl.
        rewrite (rfind_absent slash_char s Hnone'), Z.eqb_refl.
        reflexivity.
  - rewrite (folder_part slash_char new_folder Hne Hnf). split.
    + intros pre post -> Hpost.
      rewrite (rfind_last slash_char pre post Hpost).
      rewrite (position_is_not_npos pre _ Hs). cbn [negb].
      apply replace0_after_separator. exact Hs.
    + intros Habsent. rewrite (rfind_absent slash_char s Habsent).
      rewrite Z.eqb_refl. reflexivity.
Qed.

Lemma ReplaceFolder_spec_witness :
  ReplaceFolder false "in/dir/img01" "" = "in/dir/img01" /\
  ReplaceFolder false "in/dir/img01" "out" = "out/img01" /\
  ReplaceFolder false "img01" "out/" = "out/img01" /\
  ReplaceFolder true "in/img01" "out" = "out" ++ backslash ++ "img01".
Proof.
  split; [|split; [|split]].
  - apply (ReplaceFolder_spec false "in/dir/img01" "out"); reflexivity.
  - refine (proj1 (proj2 (ReplaceFolder_spec false "in/dir/img01" "out" _ _) _)
              "in/dir" "img01" _ _);
      [reflexivity | reflexivity | discriminate | reflexivity | reflexivity].
  - refine (proj2 (proj2 (ReplaceFolder_spec false "img01" "out/" _ _) _) _);
      [reflexivity | reflexivity | discriminate | reflexivity].
  - refine (proj1 (proj2 (proj2 (ReplaceFolder_spec true "in/img01" "out" _ _)
                            _) _) "in" "img01" _ _);
      [reflexivity | reflexivity | discriminate | reflexivity
       | reflexivity | reflexivity].
Defined.

(** C10, as stated, fails on the build with WIN32, whichever character
    "path separator" is read as.  Read as the slash: the folder is completed
    by a backslash.  Read as the backslash: a path without backslash is not
    kept whole, it is cut at its last slash.  Read as either of the two:
    what is kept starts after the last backslash, not after the slash that
    comes later. *)
Lemma ReplaceFolder_WIN32_differs :
  ReplaceFolder true "in/img01" "out" = "out" ++ backslash ++ "img01" /\
  ReplaceFolder true "in/img01" "out" <> "out/img01" /\
  ReplaceFolder true "in/img01" "out" <> "out" ++ backslash ++ "in/img01" /\
  ReplaceFolder true ("a" ++ backslash ++ "b/c") "out"
  = "out" ++ backslash ++ "b/c" /\
  ReplaceFolder true ("a" ++ backslash ++ "b/c") "out"
  <> "out" ++ backslash ++ "c" /\
  ReplaceFolder true ("a" ++ backslash ++ "b/c") "out" <> "out/c".
Proof. repeat split; discriminate. Qed.

(** X17. On the WIN32 build the separator added to the folder is the
    backslash, and the part of [s] that is kept follows its last backslash;
    a slash counts only when [s] has no backslash. *)
Lemma ReplaceFolder_WIN32 (s new_folder : string) :
  (size s < npos)%Z -> (size new_folder < npos)%Z -> new_folder <> "" ->
  (forall pre post,
     s = pre ++ backslash ++ post -> occurs backslash_char post = false ->
     ReplaceFolder true s new_folder
     = with_separator backslash_char new_folder ++ post) /\
  (occurs backslash_char s = false ->
   forall pre post,
     s = pre ++ slash ++ post -> occurs slash_char post = false ->
     ReplaceFolder true s new_folder
     = with_separator backslash_char new_folder ++ post) /\
  (occurs backslash_char s = false -> occurs slash_char s = false ->
   ReplaceFolder true s new_folder
   = with_separator backslash_char new_folder ++ s).
Proof.
  intros Hs Hnf Hne. unfold ReplaceFolder. rewrite (eqb_empty _ Hne).
  cbv zeta. unfold slash, backslash.
  rewrite (folder_part backslash_char new_folder Hne Hnf).
  split; [|split].
  - intros pre post -> Hpost. cbn [append] in *.
    rewrite (rfind_last backslash_char pre post Hpost).
    rewrite !(position_is_not_npos pre _ Hs). cbn [negb].
    apply replace0_after_separator. exact Hs.
  - intros Hnone pre post -> Hpost. cbn [append] in *.
    rewrite (rfind_absent backslash_char _ Hnone), Z.eqb_refl.
    rewrite (rfind_last slash_char pre post Hpost).
    rewrite !(position_is_not_npos pre _ Hs). cbn [negb].
    apply replace0_after_separator. exact Hs.
  - intros Hnone Hnone'.
    rewrite (rfind_absent backslash_char s Hnone), Z.eqb_refl.
    rewrite (rfind_absent slash_char s Hnone'), Z.eqb_refl.
    reflexivity.
Qed.

End FolderFacts.

(** ** 3x3 matrices *)

Module MatxFacts.
Import Matx.
Local Open Scope R_scope.

Lemma Matx33_eq (a b : Matx33d) :
  m00 a = m00 b -> m01 a = m01 b -> m02 a = m02 b ->
  m10 a = m10 b -> m11 a = m11 b -> m12 a = m12 b ->
  m20 a = m20 b -> m21 a = m21 b -> m22 a = m22 b ->
  a = b.
Proof. destruct a, b; cbn; intros; subst; reflexivity. Qed.

Lemma mul_eye_r (a : Matx33d) : mul a eye = a.
Proof. apply Matx33_eq; cbn; ring. Qed.

Lemma mul_eye_l (a : Matx33d) : mul eye a = a.
Proof. apply Matx33_eq; cbn; ring. Qed.

Lemma mul_assoc (a b c : Matx33d) : mul a (mul b c) = mul (mul a b) c.
Proof. apply Matx33_eq; cbn; ring. Qed.

Lemma determinant_mul (a b : Matx33d) :
  determinant (mul a b) = determinant a * determinant b.
Proof. unfold determinant; cbn; ring. Qed.

Lemma determinant_eye : determinant eye = 1.
Proof. unfold determinant; cbn; ring. Qed.

Lemma inv_eye : inv eye = eye.
Proof.
  unfold inv. destruct (Req_dec_T (determinant eye) 0) as [H|H].
  - rewrite determinant_eye in H. lra.
  - rewrite determinant_eye. apply Matx33_eq; cbn; field.
Qed.

(** On an invertible matrix [inv] is the inverse. *)
Lemma mul_inv_l (a : Matx33d) : invertible a -> mul (inv a) a = eye.
Proof.
  unfold invertible, inv. intros Ha.
  destruct (Req_dec_T (determinant a) 0) as [H|_]; [contradiction|].
  unfold determinant in *. apply Matx33_eq; cbn; field; exact Ha.
Qed.

Lemma mul_inv_r (a : Matx33d) : invertible a -> mul a (inv a) = eye.
Proof.
  unfold invertible, inv. intros Ha.
  destruct (Req_dec_T (determinant a) 0) as [H|_]; [contradiction|].
  unfold determinant in *. apply Matx33_eq; cbn; field; exact Ha.
Qed.

Lemma invertible_mul (a b : Matx33d) :
  invertible a -> invertible b -> invertible (mul a b).
Proof.
  unfold invertible. intros Ha Hb. rewrite determinant_mul.
  apply Rmult_integral_contrapositive_currified; assumption.
Qed.

(** A left inverse of an invertible matrix is [inv] of it. *)
Lemma left_inverse_unique (a b : Matx33d) :
  invertible a -> mul b a = eye -> b = inv a.
Proof.
  intros Ha Hba.
  rewrite <- (mul_eye_r b), <- (mul_inv_r a Ha), mul_assoc, Hba.
  apply mul_eye_l.
Qed.

Lemma inv_mul (a b : Matx33d) :
  invertible a -> invertible b -> inv (mul a b) = mul (inv b) (inv a).
Proof.
  intros Ha Hb. symmetry.
  apply left_inverse_unique; [now apply invertible_mul|].
  rewrite <- (mul_assoc (inv b) (inv a) (mul a b)).
  rewrite (mul_assoc (inv a) a b), (mul_inv_l a Ha), mul_eye_l.
  apply mul_inv_l. exact Hb.
Qed.

End MatxFacts.

(** ** Stabilize *)

Module StabilizeFacts.
Import SizeT StdVector StdString Folder Matx MatxFacts Stabilizer.

Section Loop.

Context {Image : Type}.
Variable imread : string -> Image.
Variable GetImage : list string -> nat -> Image.
Variable empty : Image -> bool.
Variable draw_bounds : Image -> Image.
Variable warpPerspective : Image -> Matx33d -> Image.
Variables NDEBUG WIN32 : bool.
Variable flags : Flags.
Variable image_files : list string.
Variable files_reserved : list string.
Variable Hs : list Matx33d.
Variable reserved : list Matx33d.
Variable draw_lines : bool.

Let loop := Stabilize_loop Image GetImage empty draw_bounds warpPerspective
              WIN32 flags image_files Hs reserved draw_lines.

Let run := Stabilize Image imread GetImage empty draw_bounds warpPerspective
             NDEBUG WIN32 flags image_files files_reserved Hs reserved
             draw_lines.

(** One round of the loop: the read of [Hs[i - 1]] is outside the
    allocation, or the frame is warped and its name cannot be formed, or
    the frame is handled and the loop goes on. *)
Lemma loop_cons (file : string) (rest : list string) (i : nat) (H : Matx33d) :
  let H' := if (0 <? i)%nat
            then option_map (fun Hi => mul (inv Hi) H)
                   (unchecked Hs reserved (i - 1)%nat)
            else Some H in
  match H' with
  | None => loop (file :: rest) i H = ([], Stopped OutOfBounds)
  | Some H1 =>
      (output_name WIN32 flags file = None /\
       loop (file :: rest) i H
       = ([mkFrame H1 None], Stopped OutOfRangeException))
      \/ exists written,
           loop (file :: rest) i H
           = (mkFrame H1 written :: fst (loop rest (S i) H1),
              snd (loop rest (S i) H1))
  end.
Proof.
  unfold loop. cbn [Stabilize_loop].
  destruct (0 <? i)%nat;
    [destruct (unchecked Hs reserved (i - 1)%nat) as [Hi|]; cbn [option_map]|];
    try reflexivity;
    (destruct (empty (GetImage image_files i));
     [|destruct (output_name WIN32 flags file) as [name|]]);
    try (left; split; reflexivity);
    right; eexists;
    match goal with
    | |- context [Stabilize_loop ?I ?g ?e ?d ?w ?W ?fl ?fs ?hs ?rs ?dl rest ?k ?h] =>
        destruct (Stabilize_loop I g e d w W fl fs hs rs dl rest k h)
    end; reflexivity.
Qed.

(** The transform of the [k]-th frame the loop gets to, when it starts at
    frame [i] with [H]: the inverses of what [Hs[i-1 .. i+k-1]] reads,
    folded onto [H]. *)
Lemma loop_frames (rest : list string) :
  forall (i : nat) (H : Matx33d) (k : nat) (f : Frame Image),
    fst (loop rest i H) !! k = Some f ->
    frame_H f
    = fold_left undo (take (i + k - (i - 1)) (drop (i - 1) (Hs ++ reserved))) H
    /\ (i + k <= List.length (Hs ++ reserved))%nat.
Proof.
  induction rest as [|file rest IH]; intros i H k f Hk.
  - discriminate.
  - pose proof (loop_cons file rest i H) as Hc. cbv zeta in Hc.
    unfold unchecked in Hc.
    destruct i as [|i].
    + cbn [Nat.ltb Nat.leb] in Hc.
      destruct Hc as [[_ Hc]|[written Hc]]; rewrite Hc in Hk;
        (destruct k as [|k]; cbn in Hk;
         [injection Hk as <-; cbn; split; [reflexivity | lia] |]).
      * now destruct k.
      * destruct (IH 1%nat H k f Hk) as [HH Hlen].
        split; [|lia]. rewrite HH. cbn [Nat.sub drop].
        do 2 f_equal; lia.
    + replace (0 <? S i)%nat with true in Hc by reflexivity.
      replace (S i - 1)%nat with i in * by lia.
      destruct ((Hs ++ reserved) !! i) as [Hi|] eqn:Hlook; cbn [option_map] in Hc.
      2:{ rewrite Hc in Hk. discriminate. }
      pose proof (lookup_lt_Some _ _ _ Hlook) as Hlt.
      rewrite (drop_S _ _ _ Hlook).
      destruct Hc as [[_ Hc]|[written Hc]]; rewrite Hc in Hk;
        (destruct k as [|k]; cbn in Hk;
         [injection Hk as <-;
          replace (S i + 0 - i)%nat with 1%nat by lia;
          cbn; split; [reflexivity | lia] |]).
      * now destruct k.
      * destruct (IH (S (S i)) (mul (inv Hi) H) k f Hk) as [HH Hlen].
        split; [|lia]. rewrite HH.
        replace (S (S i) - 1)%nat with (S i) by lia.
        replace (S i + S k - i)%nat with (S (S (S i) + k - S i)) by lia.
        reflexivity.
Qed.

(** A loop that reaches its end has handled every frame. *)
Lemma loop_Done (rest : list string) :
  forall (i : nat) (H : Matx33d),
    snd (loop rest i H) = Done ->
    List.length (fst (loop rest i H)) = List.length rest.
Proof.
  induction rest as [|file rest IH]; intros i H Hd.
  - reflexivity.
  - pose proof (loop_cons file rest i H) as Hc. cbv zeta in Hc.
    destruct (if (0 <? i)%nat
              then option_map (fun Hi => mul (inv Hi) H)
                     (unchecked Hs reserved (i - 1)%nat)
              else Some H) as [H1|].
    + destruct Hc as [[_ Hc]|[written Hc]]; rewrite Hc in Hd |- *; cbn in Hd |- *.
      * discriminate.
      * f_equal. apply IH. exact Hd.
    + rewrite Hc in Hd. discriminate.
Qed.

(** The frames of a whole run are those of the loop started at frame 0
    with the identity, or none at all. *)
Lemma run_frames :
  fst run = [] \/ fst run = fst (loop image_files 0%nat eye).
Proof.
  unfold run, Stabilize, loop.
  destruct (negb NDEBUG && _); [left; reflexivity|].
  destruct (unchecked image_files files_reserved 0);
    [right; reflexivity | left; reflexivity].
Qed.

(** With a file to start from, a run that gets past the assertion is the
    loop. *)
Lemma run_without_assertion :
  NDEBUG = true -> image_files <> [] -> run = loop image_files 0%nat eye.
Proof.
  intros Hn Hne. unfold run, Stabilize, loop. rewrite Hn. cbn [negb andb].
  destruct image_files; [congruence | reflexivity].
Qed.

Lemma run_frame_H (i : nat) (f : Frame Image) :
  fst run !! i = Some f ->
  frame_H f = fold_inverses (take i (Hs ++ reserved))
  /\ (i <= List.length (Hs ++ reserved))%nat.
Proof.
  intros Hi. destruct run_frames as [Hr|Hr]; rewrite Hr in Hi.
  - discriminate.
  - destruct (loop_frames _ _ _ _ _ Hi) as [HH Hlen].
    split; [|exact Hlen]. rewrite HH. unfold fold_inverses.
    cbn [Nat.sub drop]. do 2 f_equal; lia.
Qed.

(** From one frame to the next. *)
Lemma run_step (i : nat) (f : Frame Image) :
  fst run !! S i = Some f ->
  exists Ti f', (Hs ++ reserved) !! i = Some Ti /\ fst run !! i = Some f' /\
                frame_H f = mul (inv Ti) (frame_H f').
Proof.
  intros Hf. destruct (run_frame_H _ _ Hf) as [HH Hlen].
  destruct (lookup_lt_is_Some_2 (Hs ++ reserved) i ltac:(lia)) as [Ti HTi].
  destruct (lookup_lt_is_Some_2 (fst run) i) as [f' Hf'].
  { apply lookup_lt_Some in Hf. lia. }
  exists Ti, f'. split; [exact HTi|]. split; [exact Hf'|].
  destruct (run_frame_H _ _ Hf') as [HH' _].
  rewrite HH, HH'. unfold fold_inverses.
  rewrite (take_S_r _ _ _ HTi), fold_left_app. reflexivity.
Qed.

(** C3. The transform in force for frame 0 is the identity; the one for
    frame i+1 is inverse(Hs[i]) times the one for frame i; so the one for
    frame i is the left-to-right fold of the inverses of the first i
    pairwise transforms.  This holds of every frame the run gets to,
    whatever the chain and however the run ends.  [Hs[i]] is the read the
    code makes: the i-th transform of the chain for every frame the chain
    reaches, and what the storage holds behind the chain for a frame
    further on. *)
Theorem Stabilize_cumulative :
  (forall f, fst run !! 0%nat = Some f -> frame_H f = eye) /\
  (forall i f, fst run !! S i = Some f ->
     exists Ti f', unchecked Hs reserved i = Some Ti /\
                   ((i < List.length Hs)%nat -> Hs !! i = Some Ti) /\
                   fst run !! i = Some f' /\
                   frame_H f = mul (inv Ti) (frame_H f')) /\
  (forall i f, fst run !! i = Some f ->
     frame_H f = fold_inverses (take i (Hs ++ reserved)) /\
     ((i <= List.length Hs)%nat -> frame_H f = fold_inverses (take i Hs))).
Proof.
  split; [|split].
  - intros f Hf. destruct (run_frame_H _ _ Hf) as [-> _]. reflexivity.
  - intros i f Hf. destruct (run_step _ _ Hf) as (Ti & f' & HTi & Hf' & HH).
    exists Ti, f'. split; [exact HTi|]. split; [|split; [exact Hf' | exact HH]].
    intros Hlt. rewrite lookup_app_l in HTi by exact Hlt. exact HTi.
  - intros i f Hf. destruct (run_frame_H _ _ Hf) as [HH _].
    split; [exact HH|]. intros Hle. rewrite HH.
    now rewrite take_app_le by exact Hle.
Qed.

(** With the storage reaching far enough and every output name formable,
    a run without assertions handles every frame. *)
Lemma loop_completes (rest : list string) :
  forall (i : nat) (H : Matx33d),
    (i + List.length rest <= List.length (Hs ++ reserved) + 1)%nat ->
    (forall file, In file rest -> output_name WIN32 flags file <> None) ->
    snd (loop rest i H) = Done.
Proof.
  induction rest as [|file rest IH]; intros i H Hlen Hnames.
  - reflexivity.
  - pose proof (loop_cons file rest i H) as Hc. cbv zeta in Hc.
    cbn [List.length] in Hlen.
    assert (Hstep : exists H1,
      (if (0 <? i)%nat
       then option_map (fun Hi => mul (inv Hi) H)
              (unchecked Hs reserved (i - 1)%nat)
       else Some H) = Some H1).
    { destruct i as [|i]; [eexists; reflexivity|].
      replace (0 <? S i)%nat with true by reflexivity. unfold unchecked.
      destruct (lookup_lt_is_Some_2 (Hs ++ reserved) (S i - 1)%nat ltac:(lia))
        as [Hi ->].
      eexists; reflexivity. }
    destruct Hstep as [H1 Hstep]. rewrite Hstep in Hc.
    destruct Hc as [[Hname _]|[written Hc]].
    + exfalso. apply (Hnames file); [left; reflexivity | exact Hname].
    + rewrite Hc. cbn [snd]. apply IH; [lia|].
      intros file' Hin. apply Hnames. right. exact Hin.
Qed.

Lemma run_completes :
  NDEBUG = true -> image_files <> [] ->
  (List.length image_files <= List.length (Hs ++ reserved) + 1)%nat ->
  (forall file, In file image_files -> output_name WIN32 flags file <> None) ->
  snd run = Done /\ List.length (fst run) = List.length image_files.
Proof.
  intros Hn Hne Hlen Hnames.
  rewrite (run_without_assertion Hn Hne).
  assert (Hd : snd (loop image_files 0%nat eye) = Done)
    by (apply loop_completes; [lia | exact Hnames]).
  split; [exact Hd | apply loop_Done; exact Hd].
Qed.

(** X19. Built without assertions, given at least one file, a chain of at
    least image_files.size() - 1 transforms and file names from which the
    output names can be formed, the run reaches its end and has handled
    one frame per file (the image functions are taken to return). *)
Lemma Stabilize_completes :
  NDEBUG = true -> image_files <> [] ->
  (List.length image_files <= List.length Hs + 1)%nat ->
  (forall file, In file image_files -> output_name WIN32 flags file <> None) ->
  snd run = Done /\ List.length (fst run) = List.length image_files.
Proof.
  intros Hn Hne Hlen Hnames.
  apply run_completes; [exact Hn | exact Hne | | exact Hnames].
  rewrite length_app. lia.
Qed.

(** The assertion of Stabilize fails on every chain shorter than the
    files. *)
Lemma assertion_rejects_short_chain :
  (List.length Hs <= List.length image_files)%nat ->
  (Z.of_nat (List.length image_files) < npos)%Z ->
  (Z.of_nat (List.length image_files)
   =? sub (Z.of_nat (List.length Hs)) 1)%Z = false.
Proof.
  intros Hshort Hfits.
  apply Z.eqb_neq. unfold sub, wrap, npos, modulus in *.
  destruct (List.length Hs) as [|n] eqn:E.
  - change ((Z.of_nat 0 - 1) mod 2 ^ 64)%Z with (2 ^ 64 - 1)%Z. lia.
  - rewrite Z.mod_small; lia.
Qed.

(** C4 does not hold of the code. A chain shorter than the number of
    images minus one is not tolerated.  Built with assertions, the run is aborted by the entry
    assertion before any frame.  Built without, the frames that have no
    transform are handled like the others: every frame behind the chain
    that the run gets to is formed from what the storage of the chain
    holds behind its last element, and the run goes through all the files
    when that storage reaches far enough. *)
Theorem Stabilize_short_chain :
  (List.length Hs + 1 < List.length image_files)%nat ->
  (Z.of_nat (List.length image_files) < npos)%Z ->
  (NDEBUG = false -> run = ([], Stopped AssertionFailed)) /\
  (forall i f, fst run !! S i = Some f -> (List.length Hs <= i)%nat ->
     exists G f', reserved !! (i - List.length Hs)%nat = Some G /\
                  fst run !! i = Some f' /\
                  frame_H f = mul (inv G) (frame_H f')) /\
  (NDEBUG = true ->
   (List.length image_files
    <= List.length Hs + List.length reserved + 1)%nat ->
   (forall file, In file image_files -> output_name WIN32 flags file <> None) ->
   snd run = Done /\ List.length (fst run) = List.length image_files).
Proof.
  intros Hshort Hfits. split; [|split].
  - intros ->. unfold run, Stabilize. cbn [negb andb].
    rewrite assertion_rejects_short_chain by (try exact Hfits; lia).
    reflexivity.
  - intros i f Hf Hle.
    destruct (run_step _ _ Hf) as (G & f' & HG & Hf' & HH).
    exists G, f'. split; [|split; [exact Hf' | exact HH]].
    rewrite lookup_app_r in HG by exact Hle. exact HG.
  - intros Hn Hlen Hnames. apply run_completes;
      [exact Hn | | rewrite length_app; lia | exact Hnames].
    intros E. rewrite E in Hshort. cbn in Hshort. lia.
Qed.

End Loop.

(** C7. Two identical pairwise transforms T, T at the head of the chain:
    the transform in force for frame 2 is inverse(T) inverse(T), and for an
    invertible T that is the inverse of T T. *)
Theorem chain_of_two_identical {Image : Type}
    (imread : string -> Image) (GetImage : list string -> nat -> Image)
    (empty : Image -> bool) (draw_bounds : Image -> Image)
    (warpPerspective : Image -> Matx33d -> Image)
    (NDEBUG WIN32 : bool) (flags : Flags)
    (image_files files_reserved : list string)
    (T : Matx33d) (more reserved : list Matx33d) (draw_lines : bool)
    (f : Frame Image) :
  invertible T ->
  fst (Stabilize Image imread GetImage empty draw_bounds warpPerspective
         NDEBUG WIN32 flags image_files files_reserved (T :: T :: more)
         reserved draw_lines)
    !! 2%nat = Some f ->
  frame_H f = mul (inv T) (inv T) /\
  mul (inv T) (inv T) = inv (mul T T).
Proof.
  intros HT Hf. split.
  - destruct (run_frame_H _ _ _ _ _ _ _ _ _ _ _ _ _ _ _ Hf) as [-> _].
    unfold fold_inverses. cbn [app take fold_left]. unfold undo.
    now rewrite mul_eye_r.
  - symmetry. apply inv_mul; exact HT.
Qed.

End StabilizeFacts.

(** ** The sample run *)

Module SampleFacts.
Import SizeT StdVector StdString Folder Matx MatxFacts Stabilizer StabilizeFacts.
Local Open Scope string_scope.

Lemma invertible_twice : invertible Sample.twice.
Proof. unfold invertible, determinant; cbn. lra. Qed.

Lemma Stabilize_cumulative_witness :
  exists f0 f1 f2,
    fst (Sample.stabilize true [Sample.twice; eye]) = [f0; f1; f2] /\
    frame_H f0 = eye /\
    frame_H f1 = mul (inv Sample.twice) (frame_H f0) /\
    frame_H f2 = fold_inverses [Sample.twice; eye].
Proof.
  destruct (Stabilize_cumulative (fun _ => O) (fun _ i => i) (fun _ => false)
              (fun image => image) (fun image _ => image)
              true false Sample.flags Sample.files []
              [Sample.twice; eye] [] false)
    as (H0 & Hstep & Hfold).
  do 3 eexists. split; [reflexivity|].
  split; [apply H0; reflexivity|].
  split.
  - destruct (Hstep 0%nat _ eq_refl) as (Ti & f' & HTi & _ & Hf' & HH).
    injection HTi as <-. injection Hf' as <-. exact HH.
  - apply (Hfold 2%nat); [reflexivity | cbn; lia].
Defined.

(** C4 at the failing input: the composer leaves out the link between
    images 0 and 1; given the chain of one transform, the slot reserved
    behind it and the three files, Stabilize stops at its assertion, and
    with assertions compiled out it handles the three frames, the last
    under a transform formed from the unwritten slot.  The whole tool does
    the same. *)
Lemma Stabilize_short_chain_witness :
  Sample.compose Sample.gap_matches SIMILARITY = Ok ([eye], [(1, 2)]%Z) /\
  reserved_behind Sample.unwritten Sample.Matches Sample.images
    Sample.gap_matches [eye] = [Sample.twice] /\
  Sample.stabilize_reserved false [eye] [Sample.twice]
  = ([], Stopped AssertionFailed) /\
  (exists f1 f2,
     fst (Sample.stabilize_reserved true [eye] [Sample.twice]) !! 1%nat
     = Some f1 /\
     fst (Sample.stabilize_reserved true [eye] [Sample.twice]) !! 2%nat
     = Some f2 /\
     frame_H f2 = mul (inv Sample.twice) (frame_H f1)) /\
  snd (Sample.stabilize_reserved true [eye] [Sample.twice]) = Done /\
  List.length (fst (Sample.stabilize_reserved true [eye] [Sample.twice]))
  = 3%nat /\
  Sample.run Sample.gap_matches false = ([], Stopped AssertionFailed) /\
  Sample.run Sample.gap_matches true
  = Sample.stabilize_reserved true [eye] [Sample.twice].
Proof.
  split; [reflexivity|]. split; [reflexivity|].
  destruct (Stabilize_short_chain (fun _ => O) (fun _ i => i) (fun _ => false)
              (fun image => image) (fun image _ => image)
              false false Sample.flags Sample.files []
              [eye] [Sample.twice] false)
    as (Hassert & _ & _); [cbn; lia | reflexivity |].
  destruct (Stabilize_short_chain (fun _ => O) (fun _ i => i) (fun _ => false)
              (fun image => image) (fun image _ => image)
              true false Sample.flags Sample.files []
              [eye] [Sample.twice] false)
    as (_ & Hbehind & Hdone); [cbn; lia | reflexivity |].
  split; [exact (Hassert eq_refl)|].
  split.
  - destruct (Hbehind 1%nat _ eq_refl) as (G & f' & HG & Hf' & HH);
      [cbn; lia|].
    injection HG as <-. do 2 eexists.
    split; [exact Hf'|]. split; [reflexivity | exact HH].
  - destruct Hdone as [Hd Hl]; [reflexivity | cbn; lia | |].
    + intros file [<-|[<-|[<-|[]]]]; discriminate.
    + split; [exact Hd|]. split; [exact Hl|]. split; reflexivity.
Defined.

Lemma chain_of_two_identical_witness :
  mul (inv Sample.twice) (mul (inv Sample.twice) eye)
  = mul (inv Sample.twice) (inv Sample.twice) /\
  mul (inv Sample.twice) (inv Sample.twice)
  = inv (mul Sample.twice Sample.twice).
Proof.
  apply (chain_of_two_identical (fun _ => O) (fun _ i => i) (fun _ => false)
           (fun image => image) (fun image _ => image)
           true false Sample.flags Sample.files [] Sample.twice [] [] false
           (mkFrame (mul (inv Sample.twice) (mul (inv Sample.twice) eye))
                    (Some ("./f2_stab.png", 2%nat)))).
  - unfold invertible, determinant; cbn. lra.
  - reflexivity.
Defined.

(** The sample run with all links present: without assertions the three
    frames are written; with assertions the run stops before the first. *)
Lemma full_chain_run :
  snd (Sample.run Sample.full_matches true) = Done /\
  List.length (fst (Sample.run Sample.full_matches true)) = 3%nat /\
  Sample.run Sample.full_matches false = ([], Stopped AssertionFailed).
Proof. repeat split. Qed.

End SampleFacts.

(** ** The chain composers *)

Module ComposerFacts.
Import Matx Stabilizer Vocabulary.

Lemma filter_all {A : Type} (P : A -> bool) (l : list A) :
  (forall x, In x l -> P x = true) -> List.filter P l = l.
Proof.
  induction l as [|x l IH]; intros Hall; [reflexivity|].
  cbn [List.filter]. rewrite (Hall x (or_introl eq_refl)).
  f_equal. apply IH. intros y Hy. apply Hall. right. exact Hy.
Qed.

(** The [i]-th element that passes a filter sits at position [i] or later. *)
Lemma filter_lookup {A : Type} (P : A -> bool) (l : list A) :
  forall (i : nat) (x : A),
    List.filter P l !! i = Some x ->
    P x = true /\ exists j, (i <= j)%nat /\ l !! j = Some x.
Proof.
  induction l as [|y l IH]; intros i x Hi; [discriminate|].
  cbn [List.filter] in Hi. destruct (P y) eqn:Hy.
  - destruct i as [|i]; cbn in Hi.
    + injection Hi as <-. split; [exact Hy|]. exists 0%nat. split; [lia | reflexivity].
    + destruct (IH i x Hi) as [HP (j & Hj & Hl)].
      split; [exact HP|]. exists (S j). split; [lia | exact Hl].
  - destruct (IH i x Hi) as [HP (j & Hj & Hl)].
    split; [exact HP|]. exists (S j). split; [lia | exact Hl].
Qed.

Lemma consecutive_pairs_lookup (rest : list ImageID) :
  forall (prev : ImageID) (j : nat) (a b : ImageID),
    consecutive_pairs prev rest !! j = Some (a, b) ->
    (prev :: rest) !! j = Some a /\ (prev :: rest) !! S j = Some b.
Proof.
  induction rest as [|cur rest IH]; intros prev j a b Hj; [discriminate|].
  destruct j as [|j]; cbn in Hj.
  - injection Hj as <- <-. split; reflexivity.
  - apply (IH cur j a b Hj).
Qed.

Lemma consecutive_pairs_length (rest : list ImageID) (prev : ImageID) :
  List.length (consecutive_pairs prev rest) = List.length rest.
Proof.
  revert prev. induction rest as [|cur rest IH]; intros prev;
    [reflexivity | cbn; now rewrite IH].
Qed.

Section Composer.

Variable Mat : Type.
Variable cols : Mat -> Z.
Variable Mat3 : Type.
Variable coeff : Mat3 -> nat -> nat -> R.
Variable uninitialized : Mat3.
Variable Matches : Type.
Variable get_images : Matches -> list ImageID.
Variable TwoViewPointMatchMatrices : Matches -> ImageID -> ImageID -> Mat * Mat.
Variable Euclidean2DFromCorrespondences2PointRobust : RobustEstimator Mat Mat3.
Variable Similarity2DFromCorrespondences2PointRobust : RobustEstimator Mat Mat3.
Variable Affine2DFromCorrespondences3PointRobust : RobustEstimator Mat Mat3.
Variable Homography2DFromCorrespondences4PointRobust : RobustEstimator Mat Mat3.

Let enough := enough Mat cols Matches TwoViewPointMatchMatrices.
Let correspondences := correspondences Mat cols Matches TwoViewPointMatchMatrices.
Let MatToMatx := MatToMatx Mat3 coeff.
Let estimator_of := estimator_of
                      Euclidean2DFromCorrespondences2PointRobust
                      Similarity2DFromCorrespondences2PointRobust
                      Affine2DFromCorrespondences3PointRobust
                      Homography2DFromCorrespondences4PointRobust.
Let relative_loop := relative_loop Mat cols Mat3 coeff Matches
                       TwoViewPointMatchMatrices.
Let relative_matrices := relative_matrices Mat cols Mat3 coeff uninitialized
                           Matches get_images TwoViewPointMatchMatrices.
Let compose := ComputeRelativeMatrices Mat cols Mat3 coeff uninitialized
                 Matches get_images TwoViewPointMatchMatrices
                 Euclidean2DFromCorrespondences2PointRobust
                 Similarity2DFromCorrespondences2PointRobust
                 Affine2DFromCorrespondences3PointRobust
                 Homography2DFromCorrespondences4PointRobust.

(** What the loop leaves: [Es] grown by one transform for each pair that
    passed the test, and those pairs, in the order of the visit. *)
Lemma relative_loop_spec (minimal : Z) (robust : RobustEstimator Mat Mat3)
    (matches : Matches) (outliers_prob max_error_2d : R)
    (rest : list ImageID) :
  forall (prev : ImageID) (E : Mat3) (Es : list Matx33d)
         (pairs : list (ImageID * ImageID)),
    let r := relative_loop minimal robust matches outliers_prob max_error_2d
               prev rest E Es pairs in
    let passed := List.filter (enough minimal matches)
                    (consecutive_pairs prev rest) in
    snd r = pairs ++ passed /\
    List.length (fst r) = (List.length Es + List.length passed)%nat /\
    take (List.length Es) (fst r) = Es.
Proof.
  induction rest as [|cur rest IH]; intros prev E Es pairs; cbv zeta.
  - cbn. rewrite app_nil_r, Nat.add_0_r, firstn_all. auto.
  - unfold relative_loop in *. cbn [Stabilizer.relative_loop consecutive_pairs List.filter].
    change (enough minimal matches (prev, cur))
      with (minimal <=? cols (fst (TwoViewPointMatchMatrices matches prev cur)))%Z.
    destruct (minimal <=? cols (fst (TwoViewPointMatchMatrices matches prev cur)))%Z.
    + match goal with
      | |- context [Stabilizer.relative_loop _ _ _ _ _ _ _ _ _ _ _ _ _ ?E' (Es ++ [?M]) _] =>
          destruct (IH cur E' (Es ++ [M]) (pairs ++ [(prev, cur)]))
            as (Hp & Hl & Ht)
      end.
      cbv zeta in Hp, Hl, Ht. rewrite Hp, Hl.
      rewrite <- app_assoc. cbn [app List.length].
      rewrite length_app. cbn [List.length].
      split; [reflexivity|]. split; [lia|].
      rewrite length_app in Ht. cbn [List.length] in Ht.
      apply (f_equal (take (List.length Es))) in Ht.
      rewrite take_take, take_app_length in Ht.
      rewrite Nat.min_l in Ht by lia. exact Ht.
    + apply IH.
Qed.

(** The four composers at once: the transforms and the pairs they come
    from. *)
Lemma compose_spec (t : eGEOMETRIC_TRANSFORMATION) (matches : Matches)
    (Es : list Matx33d) (outliers_prob max_error_2d : R)
    (first : ImageID) (rest : list ImageID) :
  get_images matches = first :: rest ->
  exists Es',
    compose t matches Es outliers_prob max_error_2d
    = Ok (Es', List.filter (enough (minimal_cardinality t) matches)
                 (consecutive_pairs first rest)) /\
    List.length Es'
    = (List.length Es
       + List.length (List.filter (enough (minimal_cardinality t) matches)
                        (consecutive_pairs first rest)))%nat /\
    take (List.length Es) Es' = Es.
Proof.
  intros Himages.
  assert (Hgen : forall minimal robust,
    exists Es',
      relative_matrices minimal robust matches Es outliers_prob max_error_2d
      = Ok (Es', List.filter (enough minimal matches)
                   (consecutive_pairs first rest)) /\
      List.length Es'
      = (List.length Es
         + List.length (List.filter (enough minimal matches)
                          (consecutive_pairs first rest)))%nat /\
      take (List.length Es) Es' = Es).
  { intros minimal robust.
    unfold relative_matrices, Stabilizer.relative_matrices. rewrite Himages.
    destruct (relative_loop_spec minimal robust matches outliers_prob
                max_error_2d rest first uninitialized Es [])
      as (Hp & Hl & Ht).
    cbv zeta in Hp, Hl, Ht. unfold relative_loop in *.
    destruct (Stabilizer.relative_loop _ _ _ _ _ _ _ _ _ _ _ _ _ _ _ _)
      as [Es' pairs].
    cbn [fst snd app] in *. subst pairs. exists Es'. auto. }
  destruct t; apply Hgen.
Qed.

(** C5. A consecutive pair with fewer correspondences than the minimal
    cardinality of the model is passed over and the loop goes on: the
    composer returns, what it appends to the chain is one transform for
    each consecutive pair with at least the minimal count, and none of the
    pairs it estimated from is below the minimal count. *)
Theorem skipped_pairs_append_nothing (t : eGEOMETRIC_TRANSFORMATION)
    (matches : Matches) (Es : list Matx33d) (outliers_prob max_error_2d : R)
    (first : ImageID) (rest : list ImageID) :
  get_images matches = first :: rest ->
  exists Es' pairs,
    compose t matches Es outliers_prob max_error_2d = Ok (Es', pairs) /\
    take (List.length Es) Es' = Es /\
    List.length Es'
    = (List.length Es
       + List.length
           (List.filter
              (fun pair =>
                 (minimal_cardinality t <=? correspondences matches pair)%Z)
              (consecutive_pairs first rest)))%nat /\
    (forall pair, In pair pairs ->
       (minimal_cardinality t <= correspondences matches pair)%Z).
Proof.
  intros Himages.
  destruct (compose_spec t matches Es outliers_prob max_error_2d
              first rest Himages) as (Es' & Hc & Hl & Ht).
  exists Es'. eexists. split; [exact Hc|]. split; [exact Ht|].
  split; [exact Hl|].
  intros pair Hin. apply filter_In in Hin as [_ Hin].
  apply Z.leb_le. exact Hin.
Qed.

(** The transforms the loop appends are the answers of the estimator on
    the pairs that passed the test, each call starting from the matrix the
    call before left. *)
Lemma relative_loop_scan (minimal : Z) (robust : RobustEstimator Mat Mat3)
    (matches : Matches) (outliers_prob max_error_2d : R)
    (rest : list ImageID) :
  forall (prev : ImageID) (E : Mat3) (Es : list Matx33d)
         (pairs : list (ImageID * ImageID)),
    relative_loop minimal robust matches outliers_prob max_error_2d
      prev rest E Es pairs
    = (Es ++ map MatToMatx
               (estimates TwoViewPointMatchMatrices robust matches
                  outliers_prob max_error_2d E
                  (List.filter (enough minimal matches)
                     (consecutive_pairs prev rest))),
       pairs ++ List.filter (enough minimal matches)
                  (consecutive_pairs prev rest)).
Proof.
  induction rest as [|cur rest IH]; intros prev E Es pairs.
  - cbn. now rewrite !app_nil_r.
  - unfold relative_loop in *.
    cbn [Stabilizer.relative_loop consecutive_pairs List.filter].
    change (enough minimal matches (prev, cur))
      with (minimal <=? cols (fst (TwoViewPointMatchMatrices matches prev cur)))%Z.
    destruct (minimal <=? cols (fst (TwoViewPointMatchMatrices matches prev cur)))%Z.
    + rewrite IH. cbn [estimates map]. now rewrite <- !app_assoc.
    + apply IH.
Qed.

Lemma compose_scan (t : eGEOMETRIC_TRANSFORMATION) (matches : Matches)
    (Es : list Matx33d) (outliers_prob max_error_2d : R)
    (first : ImageID) (rest : list ImageID) :
  get_images matches = first :: rest ->
  compose t matches Es outliers_prob max_error_2d
  = Ok (Es ++ map MatToMatx
                (estimates TwoViewPointMatchMatrices (estimator_of t) matches
                   outliers_prob max_error_2d uninitialized
                   (List.filter (enough (minimal_cardinality t) matches)
                      (consecutive_pairs first rest))),
        List.filter (enough (minimal_cardinality t) matches)
          (consecutive_pairs first rest)).
Proof.
  intros Himages.
  assert (Hgen : forall minimal robust,
    relative_matrices minimal robust matches Es outliers_prob max_error_2d
    = Ok (Es ++ map MatToMatx
                  (estimates TwoViewPointMatchMatrices robust matches
                     outliers_prob max_error_2d uninitialized
                     (List.filter (enough minimal matches)
                        (consecutive_pairs first rest))),
          List.filter (enough minimal matches)
            (consecutive_pairs first rest))).
  { intros minimal robust.
    unfold relative_matrices, Stabilizer.relative_matrices. rewrite Himages.
    f_equal. apply (relative_loop_scan minimal robust matches outliers_prob
                      max_error_2d rest first uninitialized Es []). }
  destruct t; apply Hgen.
Qed.

(** The [i]-th answer of a run of calls is the answer to the [i]-th
    pair. *)
Lemma estimates_lookup (robust : RobustEstimator Mat Mat3)
    (matches : Matches) (outliers_prob max_error_2d : R)
    (pairs : list (ImageID * ImageID)) :
  forall (E0 : Mat3) (i : nat) (a b : ImageID),
    pairs !! i = Some (a, b) ->
    exists E,
      estimates TwoViewPointMatchMatrices robust matches
        outliers_prob max_error_2d E0 pairs !! i
      = Some (robust (fst (TwoViewPointMatchMatrices matches a b))
                     (snd (TwoViewPointMatchMatrices matches a b))
                     max_error_2d E outliers_prob).
Proof.
  induction pairs as [|[a0 b0] pairs IH]; intros E0 i a b Hi; [discriminate|].
  destruct i as [|i]; cbn in Hi.
  - injection Hi as <- <-. exists E0. reflexivity.
  - cbn [estimates]. apply (IH _ i a b Hi).
Qed.

Lemma estimates_length (robust : RobustEstimator Mat Mat3)
    (matches : Matches) (outliers_prob max_error_2d : R)
    (pairs : list (ImageID * ImageID)) :
  forall E0 : Mat3,
    List.length (estimates TwoViewPointMatchMatrices robust matches
                   outliers_prob max_error_2d E0 pairs)
    = List.length pairs.
Proof.
  induction pairs as [|[a0 b0] pairs IH]; intros E0; [reflexivity|].
  cbn [estimates List.length]. now rewrite IH.
Qed.

(** The transform at position [i] of what a composer appends, for the
    [i]-th pair it estimated from. *)
Lemma appended_lookup (robust : RobustEstimator Mat Mat3)
    (matches : Matches) (outliers_prob max_error_2d : R)
    (Es : list Matx33d) (pairs : list (ImageID * ImageID))
    (i : nat) (a b : ImageID) :
  pairs !! i = Some (a, b) ->
  exists E,
    (Es ++ map MatToMatx
             (estimates TwoViewPointMatchMatrices robust matches
                outliers_prob max_error_2d uninitialized pairs))
      !! (List.length Es + i)%nat
    = Some (MatToMatx
              (robust (fst (TwoViewPointMatchMatrices matches a b))
                      (snd (TwoViewPointMatchMatrices matches a b))
                      max_error_2d E outliers_prob)).
Proof.
  intros Hi.
  destruct (estimates_lookup robust matches outliers_prob max_error_2d
              pairs uninitialized i a b Hi) as [E HE].
  exists E. rewrite lookup_app_r by lia.
  replace (List.length Es + i - List.length Es)%nat with i by lia.
  rewrite list_lookup_fmap, HE. reflexivity.
Qed.

(** C6. The count tested before the robust estimator is called is 2 for
    Euclidean, 2 for Similarity, 3 for Affine and 4 for Homography.  A pair
    is estimated, that is, the robust estimator of the family is called on
    its two point matrices and its answer appended to the chain, if and
    only if it has at least that many correspondences: what the composer
    appends is, in order, the answer of the estimator on each of the pairs
    estimated, and these are the consecutive pairs with at least the
    minimal count, and no others. *)
Theorem estimated_iff_minimal_cardinality (t : eGEOMETRIC_TRANSFORMATION)
    (matches : Matches) (Es : list Matx33d) (outliers_prob max_error_2d : R)
    (first : ImageID) (rest : list ImageID) :
  get_images matches = first :: rest ->
  (minimal_cardinality EUCLIDEAN = 2 /\ minimal_cardinality SIMILARITY = 2 /\
   minimal_cardinality AFFINE = 3 /\ minimal_cardinality HOMOGRAPHY = 4)%Z /\
  exists Es' estimated,
    compose t matches Es outliers_prob max_error_2d = Ok (Es', estimated) /\
    Es' = Es ++ map MatToMatx
                  (estimates TwoViewPointMatchMatrices (estimator_of t)
                     matches outliers_prob max_error_2d uninitialized
                     estimated) /\
    List.length Es' = (List.length Es + List.length estimated)%nat /\
    (forall i a b, estimated !! i = Some (a, b) ->
       exists E,
         Es' !! (List.length Es + i)%nat
         = Some (MatToMatx
                   (estimator_of t
                      (fst (TwoViewPointMatchMatrices matches a b))
                      (snd (TwoViewPointMatchMatrices matches a b))
                      max_error_2d E outliers_prob))) /\
    estimated
    = List.filter
        (fun pair =>
           (minimal_cardinality t <=? correspondences matches pair)%Z)
        (consecutive_pairs first rest) /\
    (forall pair, In pair (consecutive_pairs first rest) ->
       (In pair estimated <->
        (minimal_cardinality t <= correspondences matches pair)%Z)).
Proof.
  intros Himages. split; [repeat split|].
  do 2 eexists. split; [apply (compose_scan t matches Es _ _ first rest Himages)|].
  split; [reflexivity|]. split.
  { rewrite length_app, length_map, estimates_length. reflexivity. }
  split.
  { intros i a b Hi. apply appended_lookup. exact Hi. }
  split; [reflexivity|].
  intros pair Hin. rewrite filter_In. unfold enough, Stabilizer.enough.
  rewrite Z.leb_le. tauto.
Qed.

(** C8, amended. The pairs are visited in the order of the image ids of
    the match set, which the file names have no part in.  The i-th
    transform of the chain is the answer of the robust estimator on the
    point matrices of two images that are neighbours in that order, at
    position i or later; they are the i-th and the (i+1)-th image when
    every consecutive pair has enough correspondences. *)
Theorem transforms_follow_image_order (t : eGEOMETRIC_TRANSFORMATION)
    (matches : Matches) (outliers_prob max_error_2d : R)
    (first : ImageID) (rest : list ImageID) :
  get_images matches = first :: rest ->
  exists Hs pairs,
    compose t matches [] outliers_prob max_error_2d = Ok (Hs, pairs) /\
    List.length Hs = List.length pairs /\
    (forall i T, Hs !! i = Some T ->
       exists a b j E,
         pairs !! i = Some (a, b) /\
         T = MatToMatx
               (estimator_of t
                  (fst (TwoViewPointMatchMatrices matches a b))
                  (snd (TwoViewPointMatchMatrices matches a b))
                  max_error_2d E outliers_prob) /\
         (i <= j)%nat /\
         (first :: rest) !! j = Some a /\
         (first :: rest) !! S j = Some b) /\
    ((forall pair, In pair (consecutive_pairs first rest) ->
        (minimal_cardinality t <= correspondences matches pair)%Z) ->
     relates_in_order (first :: rest) pairs /\
     List.length Hs = List.length rest /\
     (forall i T, Hs !! i = Some T ->
        exists a b E,
          (first :: rest) !! i = Some a /\
          (first :: rest) !! S i = Some b /\
          T = MatToMatx
                (estimator_of t
                   (fst (TwoViewPointMatchMatrices matches a b))
                   (snd (TwoViewPointMatchMatrices matches a b))
                   max_error_2d E outliers_prob))).
Proof.
  intros Himages.
  set (pairs := List.filter (enough (minimal_cardinality t) matches)
                  (consecutive_pairs first rest)).
  pose proof (compose_scan t matches [] outliers_prob max_error_2d
                first rest Himages) as Hc.
  fold pairs in Hc. cbn [app] in Hc.
  set (Hs := map MatToMatx
               (estimates TwoViewPointMatchMatrices (estimator_of t) matches
                  outliers_prob max_error_2d uninitialized pairs)) in *.
  assert (Hlen : List.length Hs = List.length pairs)
    by (unfold Hs; now rewrite length_map, estimates_length).
  assert (Hat : forall i T, Hs !! i = Some T ->
            exists a b E,
              pairs !! i = Some (a, b) /\
              T = MatToMatx
                    (estimator_of t
                       (fst (TwoViewPointMatchMatrices matches a b))
                       (snd (TwoViewPointMatchMatrices matches a b))
                       max_error_2d E outliers_prob)).
  { intros i T HT.
    destruct (lookup_lt_is_Some_2 pairs i) as [[a b] Hp].
    { rewrite <- Hlen. apply (lookup_lt_Some _ _ _ HT). }
    destruct (appended_lookup (estimator_of t) matches outliers_prob
                max_error_2d [] pairs i a b Hp) as [E HE].
    cbn [app List.length Nat.add] in HE. fold Hs in HE.
    exists a, b, E. split; [exact Hp | congruence]. }
  exists Hs, pairs. split; [exact Hc|]. split; [exact Hlen|]. split.
  - intros i T HT. destruct (Hat i T HT) as (a & b & E & Hp & ->).
    destruct (filter_lookup _ _ _ _ Hp) as [_ (j & Hj & Hl')].
    exists a, b, j, E. split; [exact Hp|]. split; [reflexivity|].
    split; [exact Hj|].
    apply (consecutive_pairs_lookup rest first j a b Hl').
  - intros Hall.
    assert (Hfil : pairs = consecutive_pairs first rest).
    { apply filter_all. intros pair Hin. apply Z.leb_le, Hall, Hin. }
    split; [|split].
    + rewrite Hfil. intros i a b Hi.
      apply (consecutive_pairs_lookup rest first i a b Hi).
    + rewrite Hlen, Hfil. apply consecutive_pairs_length.
    + intros i T HT. destruct (Hat i T HT) as (a & b & E & Hp & ->).
      rewrite Hfil in Hp.
      destruct (consecutive_pairs_lookup rest first i a b Hp) as [Ha Hb].
      exists a, b, E. auto.
Qed.

End Composer.

(** C5, C6 and C8 on the sample match set. *)
Lemma skipped_pairs_append_nothing_witness :
  exists Es' pairs,
    Sample.compose Sample.gap_matches SIMILARITY = Ok (Es', pairs) /\
    List.length Es' = 1%nat /\
    (forall pair, In pair pairs ->
       (2 <= Sample.count Sample.gap_matches (fst pair) (snd pair))%Z).
Proof.
  destruct (skipped_pairs_append_nothing Z (fun n => n) Matx33d Sample.coeff
              zeros Sample.Matches Sample.images
              Sample.TwoViewPointMatchMatrices
              Sample.estimator Sample.estimator Sample.estimator
              Sample.estimator SIMILARITY Sample.gap_matches [] 1e-2 1
              0%Z [1; 2]%Z eq_refl)
    as (Es' & pairs & Hc & _ & Hl & Hmin).
  exists Es', pairs. split; [exact Hc|]. split; [exact Hl | exact Hmin].
Defined.

(** With three correspondences asked for, the one pair estimated is the
    pair of images 1 and 2, and the one transform of the chain is the
    answer to its five correspondences. *)
Lemma estimated_iff_minimal_cardinality_witness :
  Sample.compose_counting Sample.gap_matches AFFINE
  = Ok ([Matx33 5 0 0 0 1 0 0 0 1], [(1, 2)]%Z).
Proof.
  destruct (estimated_iff_minimal_cardinality Z (fun n => n) Matx33d
              Sample.coeff zeros Sample.Matches Sample.images
              Sample.TwoViewPointMatchMatrices
              Sample.counting Sample.counting Sample.counting
              Sample.counting AFFINE Sample.gap_matches [] 1e-2 1
              0%Z [1; 2]%Z eq_refl)
    as (_ & Es' & estimated & Hc & HEs & _ & _ & Hp & _).
  etransitivity; [exact Hc|]. rewrite HEs, Hp. reflexivity.
Defined.

(** C8, as stated, fails: the composer skips the pair (0, 1), and the
    transform at position 0 of the chain is the answer to the five
    correspondences between images 1 and 2, not to the one between images
    0 and 1. *)
Lemma transform_0_skips_ahead :
  Sample.compose_counting Sample.gap_matches SIMILARITY
  = Ok ([Matx33 5 0 0 0 1 0 0 0 1], [(1, 2)]%Z) /\
  Sample.TwoViewPointMatchMatrices Sample.gap_matches 1 2 = (5, 5)%Z /\
  Sample.TwoViewPointMatchMatrices Sample.gap_matches 0 1 = (1, 1)%Z /\
  ~ relates_in_order (Sample.images Sample.gap_matches) [(1, 2)]%Z.
Proof.
  split; [reflexivity|]. split; [reflexivity|]. split; [reflexivity|].
  intros Hrel. destruct (Hrel 0%nat 1%Z 2%Z eq_refl) as [H0 _].
  discriminate H0.
Qed.

Lemma transforms_follow_image_order_witness :
  exists Hs pairs,
    Sample.compose_counting Sample.full_matches SIMILARITY = Ok (Hs, pairs) /\
    relates_in_order [0; 1; 2]%Z pairs /\ List.length Hs = 2%nat.
Proof.
  destruct (transforms_follow_image_order Z (fun n => n) Matx33d
              Sample.coeff zeros Sample.Matches Sample.images
              Sample.TwoViewPointMatchMatrices
              Sample.counting Sample.counting Sample.counting
              Sample.counting SIMILARITY Sample.full_matches 1e-2 1
              0%Z [1; 2]%Z eq_refl)
    as (Hs & pairs & Hc & _ & _ & Hall).
  exists Hs, pairs. split; [exact Hc|].
  destruct Hall as (Hrel & Hlen & _); [intros pair _; cbn; lia|].
  split; [exact Hrel | exact Hlen].
Defined.

End ComposerFacts.

(** ** HomogeneousToEuclidean *)

Module ProjectionFacts.
Import Projection.
Local Open Scope nat_scope.

Section Reinterpretation.

Variable pun : Scalar -> R -> Depth -> R -> Z -> R.

Lemma elemSize_depth_of (T : Scalar) : elemSize (depth_of T) = sizeof T.
Proof. now destruct T. Qed.

Lemma Depth_eqb_refl (D : Depth) : Depth_eqb D D = true.
Proof. now destruct D. Qed.

(** A store into a buffer that holds [T]: element [ptr] takes the value. *)
Lemma store_same_depth (T : Scalar) (buf : list R) (ptr : nat) (v : R) :
  ptr < List.length buf ->
  store pun T (depth_of T) buf ptr v = Some (<[ptr := v]> buf).
Proof.
  intros Hin. unfold store. rewrite elemSize_depth_of, Depth_eqb_refl.
  replace (ptr * sizeof T + sizeof T <=? List.length buf * sizeof T)
    with true; [reflexivity|].
  symmetry. apply Nat.leb_le. nia.
Qed.

(** A store that would take bytes behind the buffer. *)
Lemma store_outside (T : Scalar) (D : Depth) (buf : list R) (ptr : nat)
    (v : R) :
  List.length buf * elemSize D < ptr * sizeof T + sizeof T ->
  store pun T D buf ptr v = None.
Proof.
  intros Hout. unfold store.
  replace (ptr * sizeof T + sizeof T <=? List.length buf * elemSize D)
    with false; [reflexivity|].
  symmetry. apply Nat.leb_gt. exact Hout.
Qed.

(** A store keeps the number of elements, and stays inside the buffer. *)
Lemma store_Some (T : Scalar) (D : Depth) (buf buf' : list R) (ptr : nat)
    (v : R) :
  store pun T D buf ptr v = Some buf' ->
  List.length buf' = List.length buf /\
  ptr * sizeof T + sizeof T <= List.length buf * elemSize D.
Proof.
  unfold store.
  destruct (ptr * sizeof T + sizeof T <=? List.length buf * elemSize D)
    eqn:Hin; [|discriminate].
  apply Nat.leb_le in Hin.
  destruct (Depth_eqb D (depth_of T)); intros H; injection H as <-.
  - rewrite length_insert. auto.
  - rewrite length_imap. auto.
Qed.

(** The precision is chosen by the depth of the input alone. *)
Lemma HomogeneousToEuclidean_dispatch (X x : Mat) :
  HomogeneousToEuclidean pun X x
  = HomogeneousToEuclidean_ pun
      (match depth X with CV_32F => float | _ => double end) X x.
Proof. unfold HomogeneousToEuclidean. now destruct (depth X). Qed.

(** With one Euclidean row ([d] = 1) the inner loop makes one round per
    column and the byte step is never added to a pointer: the loop over
    [n] columns writes the [n] quotients and nothing else, in an output
    that holds [T]. *)
Lemma row_loop_one_round (T : Scalar) (Xd hd : list R) (X_step x_step : nat) :
  x_step <> 0 ->
  forall (n h_ptr X_ptr x_ptr : nat) (xd : list R),
    X_ptr + n <= List.length Xd ->
    h_ptr + n <= List.length hd ->
    x_ptr + n <= List.length xd ->
    exists xd',
      row_loop pun T (depth_of T) Xd hd X_step x_step 1 n h_ptr X_ptr x_ptr xd
      = Some xd' /\
      List.length xd' = List.length xd /\
      (forall i, i < n ->
         exists v h, Xd !! (X_ptr + i) = Some v /\
                     hd !! (h_ptr + i) = Some h /\
                     xd' !! (x_ptr + i) = Some (v / h)%R) /\
      (forall j, j < x_ptr \/ x_ptr + n <= j -> xd' !! j = xd !! j).
Proof.
  intros Hstep. apply Nat.eqb_neq in Hstep.
  induction n as [|n IH]; intros h_ptr X_ptr x_ptr xd HX Hh Hx.
  - exists xd. split; [reflexivity|]. split; [reflexivity|].
    split; [intros i Hi; lia | reflexivity].
  - cbn [row_loop]. rewrite Hstep. cbn [column_loop].
    destruct (lookup_lt_is_Some_2 Xd X_ptr ltac:(lia)) as [v Hv].
    destruct (lookup_lt_is_Some_2 hd h_ptr ltac:(lia)) as [h Hh'].
    rewrite Hv, Hh'. rewrite store_same_depth by lia.
    destruct (IH (S h_ptr) (S X_ptr) (S x_ptr) (<[x_ptr:=(v / h)%R]> xd))
      as (xd' & Hrun & Hlen & Hcols & Hframe);
      [lia | lia | rewrite length_insert; lia |].
    exists xd'. split; [exact Hrun|].
    rewrite length_insert in Hlen. split; [exact Hlen|]. split.
    + intros i Hi. destruct i as [|i].
      * exists v, h. rewrite !Nat.add_0_r. split; [exact Hv|].
        split; [exact Hh'|].
        rewrite (Hframe x_ptr ltac:(lia)).
        apply list_lookup_insert_eq. lia.
      * destruct (Hcols i ltac:(lia)) as (v' & h' & Hv' & Hh'' & Hx').
        exists v', h'.
        replace (X_ptr + S i) with (S X_ptr + i) by lia.
        replace (h_ptr + S i) with (S h_ptr + i) by lia.
        replace (x_ptr + S i) with (S x_ptr + i) by lia. auto.
    + intros j Hj. rewrite (Hframe j ltac:(lia)).
      apply list_lookup_insert_ne. lia.
Qed.

(** For 1D homogeneous points (two rows), in a freshly allocated matrix of
    floats or of doubles, the result is the quotient by the last row. *)
Lemma HomogeneousToEuclidean_two_rows (T : Scalar) (n : nat)
    (Xd xd : list R) :
  n <> 0 -> List.length Xd = 2 * n -> List.length xd = n ->
  let X := continuous 2 n (depth_of T) Xd in
  exists x',
    HomogeneousToEuclidean pun X (continuous 1 n (depth_of T) xd) = Ok x' /\
    forall i, i < n ->
      exists v h, at_ X 0 i = Some v /\ at_ X 1 i = Some h /\
                  at_ x' 0 i = Some (v / h)%R.
Proof.
  intros Hn HX Hx X.
  assert (Hdiv : n * sizeof T / sizeof T = n)
    by (apply Nat.div_mul; destruct T; discriminate).
  pose proof (elemSize_depth_of T) as Hesz.
  destruct (row_loop_one_round T Xd Xd (n * sizeof T) (n * sizeof T)
              ltac:(destruct T; cbn; lia) n n 0 0 xd
              ltac:(lia) ltac:(lia) ltac:(lia))
    as (xd' & Hrun & Hlen & Hcols & _).
  exists (mkMat 1 n (depth_of T) (n * sizeof T) xd'). split.
  - rewrite HomogeneousToEuclidean_dispatch.
    subst X. unfold continuous, HomogeneousToEuclidean_, Mat_.
    cbn [rows cols depth step data]. rewrite Hesz.
    replace (match depth_of T with CV_32F => float | _ => double end)
      with T by now destruct T.
    rewrite Depth_eqb_refl.
    rewrite Hdiv, Nat.mul_0_l, Nat.mul_1_l, Hrun. reflexivity.
  - intros i Hi. destruct (Hcols i Hi) as (v & h & Hv & Hh & Hx').
    exists v, h. subst X. unfold at_, continuous.
    cbn [rows cols depth step data]. rewrite Hesz, Hdiv.
    rewrite Nat.mul_0_l, Nat.mul_1_l. auto.
Qed.

(** For 2D homogeneous points (three rows) in freshly allocated matrices
    of doubles the second round of the inner loop is always outside the
    buffer of [X]: it looks 8 n elements further in a buffer of 3 n. *)
Lemma HomogeneousToEuclidean_three_rows (n : nat) (Xd xd : list R) :
  n <> 0 -> List.length Xd = 3 * n -> List.length xd = 2 * n ->
  HomogeneousToEuclidean pun (continuous 3 n CV_64F Xd)
                             (continuous 2 n CV_64F xd)
  = Fail OutOfBounds.
Proof.
  intros Hn HX Hx.
  unfold HomogeneousToEuclidean, HomogeneousToEuclidean_, continuous, Mat_.
  cbn [rows cols depth step data Depth_eqb depth_of elemSize sizeof].
  rewrite Nat.div_mul, Nat.mul_0_l by discriminate.
  destruct n as [|n]; [congruence|].
  cbn [row_loop].
  replace (S n * 8 =? 0) with false by (symmetry; apply Nat.eqb_neq; lia).
  cbn [column_loop].
  destruct (lookup_lt_is_Some_2 Xd 0 ltac:(lia)) as [v Hv].
  destruct (lookup_lt_is_Some_2 Xd (2 * S n) ltac:(lia)) as [h Hh].
  rewrite Hv, Hh.
  rewrite (store_same_depth double) by lia.
  rewrite (lookup_ge_None_2 Xd (0 + S n * 8)) by lia.
  reflexivity.
Qed.

Example HomogeneousToEuclidean_floats :
  HomogeneousToEuclidean pun X_2x2 x_1x2
  = Ok (continuous 1 2 CV_32F [6 / 2; 8 / 4]%R).
Proof. reflexivity. Qed.

(** C9, at the failing input.  With two Euclidean rows the inner loop
    adds the step in bytes to pointers that count elements: the second
    round looks 8 elements further, not one row further.  On freshly
    allocated matrices this leaves the buffers; inside larger buffers the
    quotient is formed from element 8 and stored at element 8, and the
    entry (1, 0) of the result keeps its old value instead of 4 / 2. *)
Theorem HomogeneousToEuclidean_byte_step :
  HomogeneousToEuclidean pun X_3x1 x_2x1 = Fail OutOfBounds /\
  at_ X_roi 1 0 = Some 4%R /\ at_ X_roi 2 0 = Some 2%R /\
  HomogeneousToEuclidean pun X_roi x_roi
  = Ok (mkMat 2 1 CV_64F 8 [2 / 2; 0; 0; 0; 0; 0; 0; 0; 7 / 2]%R) /\
  at_ (mkMat 2 1 CV_64F 8 [2 / 2; 0; 0; 0; 0; 0; 0; 0; 7 / 2]%R) 1 0
  = Some 0%R.
Proof. repeat split. Qed.

End Reinterpretation.

End ProjectionFacts.

(** ** The point normalizer *)

Module ConditioningFacts.
Import Matx Conditioning.
Local Open Scope R_scope.
















(** A transform of the shape the spec describes, on a point. *)
Lemma apply_uniform (s tx ty : R) (p : Point) :
  apply_to_point (uniform_conditioning s tx ty) p
  = (s * (fst p + tx), s * (snd p + ty)).
Proof.
  destruct p as [x y]. unfold uniform_conditioning, diag, translate.
  cbn [apply_to_point mul m00 m01 m02 m10 m11 m12 m20 m21 m22 fst snd].
  replace ((0 * 1 + 0 * 0 + 1 * 0) * x + (0 * 0 + 0 * 1 + 1 * 0) * y
           + (0 * tx + 0 * ty + 1 * 1) * 1) with 1 by ring.
  f_equal; field.
Qed.


Lemma near_refl (a tol : R) : 0 <= tol -> near a a tol.
Proof.
  intros Htol. unfold near. rewrite Rminus_diag, Rabs_R0. exact Htol.
Qed.











(** No transform of the shape the spec describes, whatever its scale and
    translation, passes the test of fundamental_test.cc: the rows of the
    test's points have variances 1/4 and 5/4. *)
Lemma uniform_scale_fails_the_test (s tx ty : R) :
  ~ conditioned
      (ApplyTransformationToPoints test_points (uniform_conditioning s tx ty)).
Proof.
  unfold conditioned, MeanAndVarianceAlongRows.
  intros (_ & _ & Hx & Hy). cbn [fst snd] in Hx, Hy.
  unfold ApplyTransformationToPoints, test_points in Hx, Hy.
  cbn [map] in Hx, Hy. rewrite !apply_uniform in Hx, Hy.
  cbn [map fst snd] in Hx, Hy.
  assert (Ex : row_variance [s * (0 + tx); s * (0 + tx);
                             s * (1 + tx); s * (1 + tx)] = s * s / 4).
  { unfold row_variance, row_mean. cbn [map sum List.length INR]. field. }
  assert (Ey : row_variance [s * (0 + ty); s * (2 + ty);
                             s * (1 + ty); s * (3 + ty)] = 5 * (s * s) / 4).
  { unfold row_variance, row_mean. cbn [map sum List.length INR]. field. }
  unfold near in Hx, Hy. rewrite Ex in Hx. rewrite Ey in Hy.
  pose proof (Rle_abs (2 - s * s / 4)) as Hx'.
  pose proof (Rle_abs (- (2 - 5 * (s * s) / 4))) as Hy'.
  rewrite Rabs_Ropp in Hy'.
  set (q := s * s) in *. lra.
Qed.

End ConditioningFacts.

(** * Part III: further properties of the code *)

(** ** The name of a stabilized file *)

Module OutputNameFacts.
Import SizeT StdString StdStringFacts Folder Stabilizer.
Local Open Scope string_scope.

Lemma substring_prefix (a b : string) :
  substring 0 (String.length a) (a ++ b) = a.
Proof.
  induction a as [|c a IH]; cbn.
  - now destruct b.
  - now rewrite IH.
Qed.

Lemma substring_whole (b : string) : substring 0 (String.length b) b = b.
Proof. induction b as [|c b IH]; cbn; [reflexivity | now rewrite IH]. Qed.

Lemma substring_suffix (a b : string) :
  substring (String.length a) (String.length b) (a ++ b) = b.
Proof.
  induction a as [|c a IH]; cbn [String.length append substring].
  - apply substring_whole.
  - exact IH.
Qed.

(** X1. A file name with a dot, [stem.ext] with no dot in [ext], gives the
    stem moved to the output folder, the suffix, and [.ext]. *)
Theorem output_name_with_dot (WIN32 : bool) (flags : Flags)
    (stem ext : string) :
  (size (stem ++ dot ++ ext) < npos)%Z ->
  occurs dot_char ext = false ->
  output_name WIN32 flags (stem ++ dot ++ ext)
  = Some (ReplaceFolder WIN32 stem (FLAGS_of flags)
          ++ FLAGS_os flags ++ dot ++ ext).
Proof.
  intros Hsz Hext. unfold output_name, dot. cbn [append].
  rewrite (rfind_last dot_char stem ext Hext).
  unfold substr, size in *. cbn [append] in Hsz.
  rewrite length_app in *. cbn [String.length] in *. unfold npos, modulus in Hsz.
  replace (Z.of_nat (String.length stem + S (String.length ext)) <? 0)%Z
    with false by (symmetry; apply Z.ltb_ge; lia).
  replace (Z.of_nat (String.length stem + S (String.length ext))
           <? Z.of_nat (String.length stem))%Z
    with false by (symmetry; apply Z.ltb_ge; lia).
  rewrite Z.sub_0_r, Z.min_l by lia.
  rewrite Z.min_r by lia.
  rewrite !Nat2Z.id.
  replace (Z.to_nat (Z.of_nat (String.length stem + S (String.length ext))
                     - Z.of_nat (String.length stem)))
    with (String.length (String dot_char ext)) by (cbn [String.length]; lia).
  rewrite substring_prefix, substring_suffix. reflexivity.
Qed.

Lemma output_name_with_dot_witness :
  output_name false Sample.flags "in/f0.png" = Some "./f0_stab.png".
Proof.
  apply (output_name_with_dot false Sample.flags "in/f0" "png");
    reflexivity.
Defined.

(** A file name without a dot has no output name: the second [substr]
    starts at [npos]. *)
Lemma output_name_without_dot (WIN32 : bool) (flags : Flags) (file : string) :
  (size file < npos)%Z -> occurs dot_char file = false ->
  output_name WIN32 flags file = None.
Proof.
  intros Hsz Hdot. unfold output_name, dot.
  rewrite (rfind_absent dot_char file Hdot). unfold substr.
  replace (size file <? npos)%Z with true by (symmetry; apply Z.ltb_lt; lia).
  now destruct (size file <? 0)%Z.
Qed.

End OutputNameFacts.

(** ** More on Stabilize *)

Module StabilizeMore.
Import SizeT StdVector StdString StdStringFacts Folder Matx MatxFacts
       Stabilizer StabilizeFacts OutputNameFacts Vocabulary.

Lemma mul_zeros_l (a : Matx33d) : mul zeros a = zeros.
Proof. apply Matx33_eq; cbn; ring. Qed.

Lemma mul_zeros_r (a : Matx33d) : mul a zeros = zeros.
Proof. apply Matx33_eq; cbn; ring. Qed.

Lemma inv_singular (a : Matx33d) : determinant a = 0%R -> inv a = zeros.
Proof.
  intros Ha. unfold inv.
  destruct (Req_dec_T (determinant a) 0); [reflexivity | contradiction].
Qed.

Lemma invertible_eye : invertible eye.
Proof. unfold invertible. rewrite determinant_eye. lra. Qed.

Lemma undo_from_zeros (Ts : list Matx33d) : fold_left undo Ts zeros = zeros.
Proof.
  induction Ts as [|T Ts IH]; [reflexivity|].
  cbn [fold_left]. unfold undo at 2. rewrite mul_zeros_r. exact IH.
Qed.

(** Once a singular transform has been undone the fold stays at zero. *)
Lemma undo_past_singular (Ts : list Matx33d) :
  forall (i k : nat) (T H : Matx33d),
    Ts !! i = Some T -> determinant T = 0%R -> (i < k)%nat ->
    fold_left undo (take k Ts) H = zeros.
Proof.
  induction Ts as [|T0 Ts IH]; intros i k T H Hi HT Hik; [discriminate|].
  destruct k as [|k]; [lia|]. cbn [take fold_left].
  destruct i as [|i]; cbn in Hi.
  - injection Hi as ->. unfold undo at 2.
    rewrite (inv_singular T HT), mul_zeros_l. apply undo_from_zeros.
  - apply (IH i k T); [exact Hi | exact HT | lia].
Qed.

(** Undoing a chain of invertible transforms inverts their product. *)
Lemma undo_invertible (Ts : list Matx33d) :
  Forall invertible Ts ->
  fold_left undo Ts eye = inv (chain_product Ts) /\
  invertible (chain_product Ts).
Proof.
  unfold chain_product.
  induction Ts as [|T Ts IH] using rev_ind; intros Hall.
  - cbn. split; [symmetry; apply inv_eye | apply invertible_eye].
  - apply Forall_app in Hall as [Hall HT].
    apply Forall_cons_1 in HT as [HT _].
    destruct (IH Hall) as [Hfold Hinv].
    rewrite !fold_left_app. cbn [fold_left]. split.
    + unfold undo at 1. rewrite Hfold. symmetry. apply inv_mul; assumption.
    + apply invertible_mul; assumption.
Qed.

Section Run.

Context {Image : Type}.
Variable imread : string -> Image.
Variable GetImage : list string -> nat -> Image.
Variable empty : Image -> bool.
Variable draw_bounds : Image -> Image.
Variable warpPerspective : Image -> Matx33d -> Image.
Variables NDEBUG WIN32 : bool.
Variable flags : Flags.
Variable image_files : list string.
Variable files_reserved : list string.
Variable Hs : list Matx33d.
Variable reserved : list Matx33d.
Variable draw_lines : bool.

Let loop := Stabilize_loop Image GetImage empty draw_bounds warpPerspective
              WIN32 flags image_files Hs reserved draw_lines.

Let run := Stabilize Image imread GetImage empty draw_bounds warpPerspective
             NDEBUG WIN32 flags image_files files_reserved Hs reserved
             draw_lines.

(** What is written for frame [i] under the transform [H]. *)
Let written (file : string) (i : nat) (H : Matx33d) : option (string * Image) :=
  let image := GetImage image_files i in
  if empty image then None
  else
    match output_name WIN32 flags file with
    | Some name =>
        Some (name,
              warpPerspective
                (if draw_lines then draw_bounds image else image) H)
    | None => None
    end.

(** One round of the loop, in full. *)
Lemma loop_unfold (file : string) (rest : list string) (i : nat) (H : Matx33d) :
  loop (file :: rest) i H
  = match (if (0 <? i)%nat
           then option_map (fun Hi => mul (inv Hi) H)
                  (unchecked Hs reserved (i - 1)%nat)
           else Some H) with
    | None => ([], Stopped OutOfBounds)
    | Some H1 =>
        if negb (empty (GetImage image_files i))
           && match output_name WIN32 flags file with
              | None => true
              | Some _ => false
              end
        then ([mkFrame H1 None], Stopped OutOfRangeException)
        else (mkFrame H1 (written file i H1) :: fst (loop rest (S i) H1),
              snd (loop rest (S i) H1))
    end.
Proof.
  unfold loop, written. cbn [Stabilize_loop].
  destruct (0 <? i)%nat;
    [destruct (unchecked Hs reserved (i - 1)%nat) as [Hi|];
     cbn [option_map]|];
    try reflexivity;
    (destruct (empty (GetImage image_files i)); cbn [negb andb];
     [|destruct (output_name WIN32 flags file) as [name|]]);
    try reflexivity;
    match goal with
    | |- context [Stabilize_loop ?I ?g ?e ?d ?w ?W ?fl ?fs ?hs ?rs ?dl rest ?k ?h] =>
        destruct (Stabilize_loop I g e d w W fl fs hs rs dl rest k h)
    end; reflexivity.
Qed.

Lemma run_is_loop :
  fst run <> [] -> run = loop image_files 0%nat eye.
Proof.
  unfold run, Stabilize, loop.
  destruct (negb NDEBUG && _); [intros H; now elim H|].
  destruct (unchecked image_files files_reserved 0);
    [reflexivity | intros H; now elim H].
Qed.

Lemma loop_written (rest : list string) :
  forall (i : nat) (H : Matx33d) (k : nat) (f : Frame Image) (file : string),
    fst (loop rest i H) !! k = Some f -> rest !! k = Some file ->
    frame_written f = written file (i + k) (frame_H f).
Proof.
  induction rest as [|file0 rest IH]; intros i H k f file Hk Hfile;
    [discriminate|].
  rewrite loop_unfold in Hk.
  destruct (if (0 <? i)%nat
            then option_map (fun Hi => mul (inv Hi) H)
                  (unchecked Hs reserved (i - 1)%nat)
            else Some H) as [H1|]; [|discriminate].
  destruct (negb (empty (GetImage image_files i))
            && match output_name WIN32 flags file0 with
               | None => true
               | Some _ => false
               end) eqn:Hexc; cbn [fst] in Hk.
  - destruct k as [|k]; [|now destruct k].
    cbn in Hk, Hfile. injection Hk as <-. injection Hfile as <-.
    rewrite Nat.add_0_r. unfold written. cbn [frame_written frame_H].
    apply andb_prop in Hexc as [He Hn].
    destruct (empty (GetImage image_files i)); [reflexivity|].
    now destruct (output_name WIN32 flags file0).
  - destruct k as [|k]; cbn in Hk, Hfile.
    + injection Hk as <-. injection Hfile as <-.
      rewrite Nat.add_0_r. reflexivity.
    + rewrite (IH (S i) H1 k f file Hk Hfile). f_equal. lia.
Qed.

Lemma loop_stops_without_name (rest : list string) :
  forall (i : nat) (H : Matx33d) (k : nat) (f : Frame Image) (file : string),
    fst (loop rest i H) !! k = Some f -> rest !! k = Some file ->
    output_name WIN32 flags file = None ->
    empty (GetImage image_files (i + k)) = false ->
    snd (loop rest i H) = Stopped OutOfRangeException /\
    List.length (fst (loop rest i H)) = S k.
Proof.
  induction rest as [|file0 rest IH]; intros i H k f file Hk Hfile Hname Himg;
    [discriminate|].
  rewrite loop_unfold in Hk |- *.
  destruct (if (0 <? i)%nat
            then option_map (fun Hi => mul (inv Hi) H)
                  (unchecked Hs reserved (i - 1)%nat)
            else Some H) as [H1|]; [|discriminate].
  destruct k as [|k]; cbn in Hfile.
  - injection Hfile as ->. rewrite Nat.add_0_r in Himg.
    rewrite Himg, Hname. cbn. split; reflexivity.
  - destruct (negb (empty (GetImage image_files i))
              && match output_name WIN32 flags file0 with
                 | None => true
                 | Some _ => false
                 end); cbn [fst snd] in Hk |- *.
    + now destruct k.
    + cbn in Hk.
      destruct (IH (S i) H1 k f file Hk Hfile Hname) as [Hst Hlen].
      { replace (S i + k)%nat with (i + S k)%nat by lia. exact Himg. }
      split; [exact Hst | cbn; now rewrite Hlen].
Qed.

(** X3. A frame that is reached, whose image is not empty and whose file
    name has no dot, ends the run with std::out_of_range: it is the last
    frame of the trace and nothing is written for it. *)
Theorem Stabilize_stops_at_name_without_dot (k : nat) (f : Frame Image)
    (file : string) :
  fst run !! k = Some f -> image_files !! k = Some file ->
  (size file < npos)%Z -> occurs dot_char file = false ->
  empty (GetImage image_files k) = false ->
  snd run = Stopped OutOfRangeException /\
  List.length (fst run) = S k /\
  frame_written f = None.
Proof.
  intros Hk Hfile Hsz Hdot Himg.
  pose proof (output_name_without_dot WIN32 flags file Hsz Hdot) as Hname.
  assert (Hne : fst run <> []) by (intros E; rewrite E in Hk; discriminate).
  pose proof (loop_written image_files 0%nat eye k f file) as Hw.
  rewrite (run_is_loop Hne) in *.
  destruct (loop_stops_without_name image_files 0%nat eye k f file
              Hk Hfile Hname Himg) as [Hst Hlen].
  split; [exact Hst|]. split; [exact Hlen|].
  rewrite (Hw Hk Hfile). unfold written. cbn [Nat.add].
  rewrite Himg, Hname. reflexivity.
Qed.

(** X4. With assertions compiled in, only a chain of exactly
    image_files.size() + 1 transforms gets past the assertion: with any
    other chain, a complete one of image_files.size() - 1 transforms
    included, the run stops there and no frame is handled. *)
Theorem Stabilize_assertion :
  NDEBUG = false ->
  (Z.of_nat (List.length image_files) < npos)%Z ->
  (Z.of_nat (List.length Hs) <= npos)%Z ->
  List.length Hs <> S (List.length image_files) ->
  run = ([], Stopped AssertionFailed).
Proof.
  intros Hn Hfits HfitsH Hlen. unfold run, Stabilize. rewrite Hn.
  cbn [negb andb].
  replace (Z.of_nat (List.length image_files)
           =? sub (Z.of_nat (List.length Hs)) 1)%Z with false;
    [reflexivity|].
  symmetry. apply Z.eqb_neq. unfold sub, wrap, npos, modulus in *.
  destruct (List.length Hs) as [|n] eqn:E.
  - change ((Z.of_nat 0 - 1) mod 2 ^ 64)%Z with (2 ^ 64 - 1)%Z. lia.
  - rewrite Z.mod_small by lia. lia.
Qed.

(** X6. A pairwise transform with determinant 0 is undone by the zero
    matrix, and from the next frame on every frame the run gets to is
    warped by the zero matrix. *)
Theorem singular_transform_zeroes_the_rest (i k : nat) (T : Matx33d)
    (f : Frame Image) :
  Hs !! i = Some T -> determinant T = 0%R -> (i < k)%nat ->
  fst run !! k = Some f ->
  frame_H f = zeros.
Proof.
  intros Hi HT Hik Hk.
  destruct (run_frame_H imread GetImage empty draw_bounds warpPerspective
              NDEBUG WIN32 flags image_files files_reserved Hs reserved
              draw_lines k f Hk) as [-> _].
  apply (undo_past_singular (Hs ++ reserved) i k T eye); [|exact HT | exact Hik].
  apply lookup_app_l_Some. exact Hi.
Qed.

(** X7. When the first k pairwise transforms are invertible, frame k is
    warped by the inverse of their product Hs[0] Hs[1] ... Hs[k-1], taken
    in this order.  The transforms are those the code reads: for a frame
    within the chain, k <= Hs.size(), they are the first k of the chain. *)
Theorem invertible_chain_inverts_product (k : nat) (f : Frame Image) :
  Forall invertible (take k (Hs ++ reserved)) ->
  fst run !! k = Some f ->
  frame_H f = inv (chain_product (take k (Hs ++ reserved))) /\
  mul (frame_H f) (chain_product (take k (Hs ++ reserved))) = eye /\
  ((k <= List.length Hs)%nat ->
   frame_H f = inv (chain_product (take k Hs)) /\
   mul (frame_H f) (chain_product (take k Hs)) = eye).
Proof.
  intros Hall Hk.
  destruct (run_frame_H imread GetImage empty draw_bounds warpPerspective
              NDEBUG WIN32 flags image_files files_reserved Hs reserved
              draw_lines k f Hk) as [-> _].
  destruct (undo_invertible (take k (Hs ++ reserved)) Hall) as [Hfold Hinv].
  unfold fold_inverses. rewrite Hfold.
  assert (Hmul : mul (inv (chain_product (take k (Hs ++ reserved))))
                     (chain_product (take k (Hs ++ reserved))) = eye)
    by (apply mul_inv_l; exact Hinv).
  split; [reflexivity|]. split; [exact Hmul|].
  intros Hle. rewrite take_app_le in Hmul |- * by exact Hle.
  split; [reflexivity | exact Hmul].
Qed.

End Run.

End StabilizeMore.

(** ** More on the chain composers *)

Module ComposerMore.
Import Matx Stabilizer ComposerFacts Vocabulary.

Lemma filter_weaker {A : Type} (P Q : A -> bool) (l : list A) :
  (forall x, Q x = true -> P x = true) ->
  List.filter Q l `sublist_of` List.filter P l.
Proof.
  intros HQP. induction l as [|x l IH]; [constructor|].
  cbn [List.filter]. destruct (Q x) eqn:HQ.
  - rewrite (HQP x HQ). now constructor.
  - destruct (P x); [now constructor | exact IH].
Qed.

Section Composer.

Variable Mat : Type.
Variable cols : Mat -> Z.
Variable Mat3 : Type.
Variable coeff : Mat3 -> nat -> nat -> R.
Variable uninitialized : Mat3.
Variable Matches : Type.
Variable get_images : Matches -> list ImageID.
Variable TwoViewPointMatchMatrices : Matches -> ImageID -> ImageID -> Mat * Mat.
Variable Euclidean2DFromCorrespondences2PointRobust : RobustEstimator Mat Mat3.
Variable Similarity2DFromCorrespondences2PointRobust : RobustEstimator Mat Mat3.
Variable Affine2DFromCorrespondences3PointRobust : RobustEstimator Mat Mat3.
Variable Homography2DFromCorrespondences4PointRobust : RobustEstimator Mat Mat3.

Let enough := enough Mat cols Matches TwoViewPointMatchMatrices.
Let MatToMatx := MatToMatx Mat3 coeff.
Let relative_loop := relative_loop Mat cols Mat3 coeff Matches
                       TwoViewPointMatchMatrices.
Let compose := ComputeRelativeMatrices Mat cols Mat3 coeff uninitialized
                 Matches get_images TwoViewPointMatchMatrices
                 Euclidean2DFromCorrespondences2PointRobust
                 Similarity2DFromCorrespondences2PointRobust
                 Affine2DFromCorrespondences3PointRobust
                 Homography2DFromCorrespondences4PointRobust.
Let estimator_of := estimator_of
                      Euclidean2DFromCorrespondences2PointRobust
                      Similarity2DFromCorrespondences2PointRobust
                      Affine2DFromCorrespondences3PointRobust
                      Homography2DFromCorrespondences4PointRobust.

(** X8. The chain a composer returns: to the transforms it was given it
    appends, for the consecutive pairs with enough correspondences in the
    order of the images, what the robust estimator of the family wrote;
    the one matrix object is handed from call to call, so each call starts
    from the estimate of the call before and the first from a matrix that
    was never assigned. *)
Theorem chain_is_a_scan (t : eGEOMETRIC_TRANSFORMATION) (matches : Matches)
    (Es : list Matx33d) (outliers_prob max_error_2d : R)
    (first : ImageID) (rest : list ImageID) :
  get_images matches = first :: rest ->
  let passed := List.filter (enough (minimal_cardinality t) matches)
                  (consecutive_pairs first rest) in
  compose t matches Es outliers_prob max_error_2d
  = Ok (Es ++ map MatToMatx
                (estimates TwoViewPointMatchMatrices (estimator_of t) matches
                   outliers_prob max_error_2d uninitialized passed),
        passed).
Proof.
  intros Himages passed.
  assert (Hgen : forall minimal robust,
    relative_matrices Mat cols Mat3 coeff uninitialized Matches get_images
      TwoViewPointMatchMatrices minimal robust matches Es
      outliers_prob max_error_2d
    = Ok (Es ++ map MatToMatx
                  (estimates TwoViewPointMatchMatrices robust matches
                     outliers_prob max_error_2d uninitialized
                     (List.filter (enough minimal matches)
                        (consecutive_pairs first rest))),
          List.filter (enough minimal matches)
            (consecutive_pairs first rest))).
  { intros minimal robust. unfold relative_matrices. rewrite Himages.
    f_equal. apply (relative_loop_scan Mat cols Mat3 coeff Matches
                      TwoViewPointMatchMatrices minimal robust matches
                      outliers_prob max_error_2d rest first uninitialized
                      Es []). }
  subst passed. destruct t; apply Hgen.
Qed.

(** X9. A composer appends at most NumImages - 1 transforms: what
    [reserve] set aside is enough for a chain that starts empty. *)
Theorem chain_within_reserve (t : eGEOMETRIC_TRANSFORMATION)
    (matches : Matches) (Es : list Matx33d) (outliers_prob max_error_2d : R) :
  get_images matches <> [] ->
  exists Es' pairs,
    compose t matches Es outliers_prob max_error_2d = Ok (Es', pairs) /\
    (List.length Es'
     <= List.length Es + (List.length (get_images matches) - 1))%nat.
Proof.
  intros Hne. destruct (get_images matches) as [|first rest] eqn:Himages;
    [congruence|].
  destruct (compose_spec Mat cols Mat3 coeff uninitialized Matches get_images
              TwoViewPointMatchMatrices
              Euclidean2DFromCorrespondences2PointRobust
              Similarity2DFromCorrespondences2PointRobust
              Affine2DFromCorrespondences3PointRobust
              Homography2DFromCorrespondences4PointRobust
              t matches Es outliers_prob max_error_2d first rest Himages)
    as (Es' & Hc & Hl & _).
  exists Es'. eexists. split; [exact Hc|].
  rewrite Hl. cbn [List.length].
  pose proof (List.filter_length_le
                (Stabilizer.enough Mat cols Matches TwoViewPointMatchMatrices
                   (minimal_cardinality t) matches)
                (consecutive_pairs first rest)) as Hle.
  rewrite consecutive_pairs_length in Hle. lia.
Qed.

(** X10. A model with a larger minimal count estimates from fewer pairs:
    the pairs of the Homography composer are among those of the Affine
    composer, which are among those of the Euclidean and Similarity
    composers; in general for two families whose minimal counts are in
    this order. *)
Theorem richer_model_fewer_pairs (t t' : eGEOMETRIC_TRANSFORMATION)
    (matches : Matches) (Es : list Matx33d) (outliers_prob max_error_2d : R) :
  get_images matches <> [] ->
  (minimal_cardinality t <= minimal_cardinality t')%Z ->
  exists Hs pairs Hs' pairs',
    compose t matches Es outliers_prob max_error_2d = Ok (Hs, pairs) /\
    compose t' matches Es outliers_prob max_error_2d = Ok (Hs', pairs') /\
    pairs' `sublist_of` pairs /\
    (List.length Hs' <= List.length Hs)%nat.
Proof.
  intros Hne Hle. destruct (get_images matches) as [|first rest] eqn:Himages;
    [congruence|].
  destruct (compose_spec Mat cols Mat3 coeff uninitialized Matches get_images
              TwoViewPointMatchMatrices
              Euclidean2DFromCorrespondences2PointRobust
              Similarity2DFromCorrespondences2PointRobust
              Affine2DFromCorrespondences3PointRobust
              Homography2DFromCorrespondences4PointRobust
              t matches Es outliers_prob max_error_2d first rest Himages)
    as (Hs & Hc & Hl & _).
  destruct (compose_spec Mat cols Mat3 coeff uninitialized Matches get_images
              TwoViewPointMatchMatrices
              Euclidean2DFromCorrespondences2PointRobust
              Similarity2DFromCorrespondences2PointRobust
              Affine2DFromCorrespondences3PointRobust
              Homography2DFromCorrespondences4PointRobust
              t' matches Es outliers_prob max_error_2d first rest Himages)
    as (Hs' & Hc' & Hl' & _).
  exists Hs. eexists. exists Hs'. eexists.
  split; [exact Hc|]. split; [exact Hc'|].
  assert (Hsub :
    List.filter (Stabilizer.enough Mat cols Matches TwoViewPointMatchMatrices
                   (minimal_cardinality t') matches)
      (consecutive_pairs first rest)
    `sublist_of`
    List.filter (Stabilizer.enough Mat cols Matches TwoViewPointMatchMatrices
                   (minimal_cardinality t) matches)
      (consecutive_pairs first rest)).
  { apply filter_weaker. intros pair. unfold Stabilizer.enough.
    rewrite !Z.leb_le. lia. }
  split; [exact Hsub|].
  rewrite Hl, Hl'. apply sublist_length in Hsub. lia.
Qed.

End Composer.

End ComposerMore.

(** ** The order of the files *)

Module SortFacts.
Import Stabilizer Vocabulary.
Local Open Scope string_scope.

Lemma ascii_compare_refl (a : ascii) : Ascii.compare a a = Eq.
Proof. unfold Ascii.compare. apply N.compare_refl. Qed.

Lemma ascii_compare_lt_trans (a b c : ascii) :
  Ascii.compare a b = Lt -> Ascii.compare b c = Lt -> Ascii.compare a c = Lt.
Proof.
  unfold Ascii.compare. rewrite !N.compare_lt_iff. apply N.lt_trans.
Qed.

Lemma compare_not_Gt_trans (s1 : string) :
  forall s2 s3 : string,
    String.compare s1 s2 <> Gt -> String.compare s2 s3 <> Gt ->
    String.compare s1 s3 <> Gt.
Proof.
  induction s1 as [|c1 s1 IH]; intros [|c2 s2] [|c3 s3] H12 H23;
    cbn in *; try congruence.
  destruct (Ascii.compare c1 c2) eqn:E12; [| |congruence].
  - apply Ascii.compare_eq_iff in E12. subst c2.
    destruct (Ascii.compare c1 c3); [|congruence|congruence].
    apply (IH s2 s3 H12 H23).
  - destruct (Ascii.compare c2 c3) eqn:E23; [| |congruence].
    + apply Ascii.compare_eq_iff in E23. subst c3. rewrite E12. congruence.
    + rewrite (ascii_compare_lt_trans c1 c2 c3 E12 E23). congruence.
Qed.

Lemma le_trans (a b c : string) : le a b -> le b c -> le a c.
Proof.
  unfold le, String.leb. intros Hab Hbc.
  pose proof (compare_not_Gt_trans a b c) as H.
  destruct (String.compare a b); try discriminate;
    destruct (String.compare b c); try discriminate;
    destruct (String.compare a c); try reflexivity;
    exfalso; apply H; congruence.
Qed.

Lemma le_total (a b : string) : le a b \/ le b a.
Proof. apply String.leb_total. Qed.

Lemma insert_sorted_permutation (x : string) (l : list string) :
  Permutation (x :: l) (insert_sorted x l).
Proof.
  induction l as [|y l IH]; cbn [insert_sorted]; [reflexivity|].
  destruct (String.leb x y); [reflexivity|].
  rewrite perm_swap. now constructor.
Qed.

Lemma sort_permutation (l : list string) : Permutation l (sort l).
Proof.
  unfold sort. induction l as [|x l IH]; cbn [fold_right]; [reflexivity|].
  rewrite <- insert_sorted_permutation. now constructor.
Qed.

Lemma insert_sorted_ascending (x : string) (l : list string) :
  StronglySorted le l -> StronglySorted le (insert_sorted x l).
Proof.
  induction 1 as [|y l Hl IH Hy]; cbn [insert_sorted].
  - repeat constructor.
  - destruct (String.leb x y) eqn:Hxy.
    + constructor; [now constructor|].
      constructor; [exact Hxy|].
      eapply Forall_impl; [exact Hy|].
      intros z Hz. apply (le_trans x y z Hxy Hz).
    + constructor; [exact IH|].
      assert (Hyx : le y x).
      { destruct (le_total x y) as [H|H]; [unfold le in H; congruence | exact H]. }
      eapply Permutation_Forall;
        [apply insert_sorted_permutation|].
      now constructor.
Qed.

Lemma sort_ascending (l : list string) : StronglySorted le (sort l).
Proof.
  unfold sort. induction l as [|x l IH]; cbn [fold_right]; [constructor|].
  now apply insert_sorted_ascending.
Qed.

(** Two ascending lists with the same elements are the same list. *)
Lemma ascending_unique (l1 : list string) :
  forall l2 : list string,
    StronglySorted le l1 -> StronglySorted le l2 -> Permutation l1 l2 ->
    l1 = l2.
Proof.
  induction l1 as [|x l1 IH]; intros l2 H1 H2 Hp.
  - now apply Permutation_nil in Hp.
  - destruct l2 as [|y l2];
      [symmetry in Hp; now apply Permutation_nil in Hp|].
    apply StronglySorted_inv in H1 as [H1 Hx].
    apply StronglySorted_inv in H2 as [H2 Hy].
    assert (Hxy : x = y).
    { assert (Hin_y : In y (x :: l1))
        by (eapply Permutation_in; [symmetry; exact Hp | now left]).
      assert (Hin_x : In x (y :: l2))
        by (eapply Permutation_in; [exact Hp | now left]).
      destruct Hin_y as [->|Hin_y]; [reflexivity|].
      destruct Hin_x as [->|Hin_x]; [reflexivity|].
      rewrite List.Forall_forall in Hx, Hy.
      apply String.leb_antisym; [apply Hx, Hin_y | apply Hy, Hin_x]. }
    subst y. f_equal. apply IH; [exact H1 | exact H2|].
    apply (Permutation_cons_inv Hp).
Qed.

Lemma sort_of_permutation (l l' : list string) :
  Permutation l l' -> sort l = sort l'.
Proof.
  intros Hp. apply ascending_unique; [apply sort_ascending ..|].
  rewrite <- (sort_permutation l), <- (sort_permutation l'). exact Hp.
Qed.

End SortFacts.

(** ** main *)

Module MainFacts.
Import SizeT StdString Folder Matx Stabilizer StabilizeFacts ComposerFacts
       Vocabulary SortFacts.

Section Main.

Variable Mat : Type.
Variable cols : Mat -> Z.
Variable Mat3 : Type.
Variable coeff : Mat3 -> nat -> nat -> R.
Variable uninitialized : Mat3.
Variable unwritten : nat -> Matx33d.
Variable Matches : Type.
Variable get_images : Matches -> list ImageID.
Variable TwoViewPointMatchMatrices : Matches -> ImageID -> ImageID -> Mat * Mat.
Variable Euclidean2DFromCorrespondences2PointRobust : RobustEstimator Mat Mat3.
Variable Similarity2DFromCorrespondences2PointRobust : RobustEstimator Mat Mat3.
Variable Affine2DFromCorrespondences3PointRobust : RobustEstimator Mat Mat3.
Variable Homography2DFromCorrespondences4PointRobust : RobustEstimator Mat Mat3.
Variable ImportMatchesFromTxt : string -> Matches.
Variable Image : Type.
Variable imread : string -> Image.
Variable GetImage : list string -> nat -> Image.
Variable empty : Image -> bool.
Variable draw_bounds : Image -> Image.
Variable warpPerspective : Image -> Matx33d -> Image.

Let main := main Mat cols Mat3 coeff uninitialized unwritten Matches get_images
              TwoViewPointMatchMatrices
              Euclidean2DFromCorrespondences2PointRobust
              Similarity2DFromCorrespondences2PointRobust
              Affine2DFromCorrespondences3PointRobust
              Homography2DFromCorrespondences4PointRobust
              ImportMatchesFromTxt
              Image imread GetImage empty draw_bounds warpPerspective.

Let compose := ComputeRelativeMatrices Mat cols Mat3 coeff uninitialized
                 Matches get_images TwoViewPointMatchMatrices
                 Euclidean2DFromCorrespondences2PointRobust
                 Similarity2DFromCorrespondences2PointRobust
                 Affine2DFromCorrespondences3PointRobust
                 Homography2DFromCorrespondences4PointRobust.

(** X11. The tool does not depend on the order in which the image files
    are given, nor on the name it is called by: the files are sorted before
    anything is done with them. *)
Theorem main_sorts_its_files (NDEBUG WIN32 : bool) (flags : Flags)
    (argv argv' : list string) :
  Permutation (tail argv) (tail argv') ->
  main NDEBUG WIN32 flags argv = main NDEBUG WIN32 flags argv'.
Proof.
  intros Hp. unfold main, Stabilizer.main.
  rewrite (sort_of_permutation (tail argv) (tail argv') Hp). reflexivity.
Qed.

(** The assertion of Stabilize fails on every chain that does not have
    one transform more than there are files. *)
Lemma assertion_fails (WIN32 : bool) (flags : Flags)
    (image_files files_reserved : list string) (Hs reserved : list Matx33d)
    (draw_lines : bool) :
  (Z.of_nat (List.length image_files) < npos)%Z ->
  (List.length Hs <= List.length image_files)%nat ->
  Stabilize Image imread GetImage empty draw_bounds warpPerspective
    false WIN32 flags image_files files_reserved Hs reserved draw_lines
  = ([], Stopped AssertionFailed).
Proof.
  intros Hfits Hlen. unfold Stabilize. cbn [negb andb].
  replace (Z.of_nat (List.length image_files)
           =? sub (Z.of_nat (List.length Hs)) 1)%Z with false;
    [reflexivity|].
  symmetry. apply Z.eqb_neq. unfold sub, wrap, npos, modulus in *.
  destruct (List.length Hs) as [|n] eqn:E.
  - change ((Z.of_nat 0 - 1) mod 2 ^ 64)%Z with (2 ^ 64 - 1)%Z. lia.
  - rewrite Z.mod_small by lia. lia.
Qed.

(** X12. Built with assertions, the tool handles no frame and does not
    reach its end whenever the match set has at most one image more than
    there are files, the usual case of one image per file included: the
    chain then has at most as many transforms as there are files, and
    Stabilize asserts one more. *)
Theorem main_with_assertions (WIN32 : bool) (flags : Flags)
    (argv : list string) :
  (Z.of_nat (List.length (tail argv)) < npos)%Z ->
  (List.length (get_images (ImportMatchesFromTxt (FLAGS_m flags)))
   <= S (List.length (tail argv)))%nat ->
  fst (main false WIN32 flags argv) = [] /\
  snd (main false WIN32 flags argv) <> Done.
Proof.
  intros Hfits Himages. unfold main, Stabilizer.main.
  assert (Hlen : List.length (sort (tail argv)) = List.length (tail argv))
    by (symmetry; apply Permutation_length, sort_permutation).
  destruct (transformation_of_flag (FLAGS_transformation flags)) as [t|].
  - destruct (get_images (ImportMatchesFromTxt (FLAGS_m flags)))
      as [|first rest] eqn:Hget.
    + assert (Hfail :
        ComputeRelativeMatrices Mat cols Mat3 coeff uninitialized Matches
          get_images TwoViewPointMatchMatrices
          Euclidean2DFromCorrespondences2PointRobust
          Similarity2DFromCorrespondences2PointRobust
          Affine2DFromCorrespondences3PointRobust
          Homography2DFromCorrespondences4PointRobust
          t (ImportMatchesFromTxt (FLAGS_m flags)) [] 1e-2 1
        = Fail OutOfBounds).
      { destruct t; unfold ComputeRelativeMatrices,
          ComputeRelativeEuclideanMatrices, ComputeRelativeSimilarityMatrices,
          ComputeRelativeAffineMatrices, ComputeRelativeHomographyMatrices,
          relative_matrices; now rewrite Hget. }
      rewrite Hfail. cbn. split; congruence.
    + destruct (compose_spec Mat cols Mat3 coeff uninitialized Matches
                  get_images TwoViewPointMatchMatrices
                  Euclidean2DFromCorrespondences2PointRobust
                  Similarity2DFromCorrespondences2PointRobust
                  Affine2DFromCorrespondences3PointRobust
                  Homography2DFromCorrespondences4PointRobust
                  t (ImportMatchesFromTxt (FLAGS_m flags)) [] 1e-2 1
                  first rest Hget) as (Hs & Hc & Hl & _).
      rewrite Hc.
      pose proof (List.filter_length_le
                    (enough Mat cols Matches TwoViewPointMatchMatrices
                       (minimal_cardinality t)
                       (ImportMatchesFromTxt (FLAGS_m flags)))
                    (consecutive_pairs first rest)) as Hle.
      rewrite consecutive_pairs_length in Hle.
      cbn [List.length] in Hl, Himages.
      rewrite assertion_fails; [cbn; split; congruence | lia | lia].
  - rewrite assertion_fails; [cbn; split; congruence | lia | cbn; lia].
Qed.

Lemma reserved_behind_length (matches : Matches) (Hs : list Matx33d) :
  List.length (Hs ++ reserved_behind unwritten Matches get_images matches Hs)
  = Nat.max (List.length Hs) (List.length (get_images matches) - 1).
Proof.
  unfold reserved_behind. rewrite length_app, length_map, length_seq. lia.
Qed.

(** X23. Built without assertions, the tool goes through all its files
    whenever the flag names a family, the match set has at least as many
    images as there are files, one at least, and the output names can be
    formed, whatever pairs the composer passed over: a chain with gaps is
    read on into the storage reserved behind it, which reaches far
    enough. *)
Theorem main_without_assertions (WIN32 : bool) (flags : Flags)
    (argv : list string) (t : eGEOMETRIC_TRANSFORMATION) :
  transformation_of_flag (FLAGS_transformation flags) = Some t ->
  tail argv <> [] ->
  (List.length (tail argv)
   <= List.length (get_images (ImportMatchesFromTxt (FLAGS_m flags))))%nat ->
  (forall file, In file (tail argv) -> output_name WIN32 flags file <> None) ->
  snd (main true WIN32 flags argv) = Done /\
  List.length (fst (main true WIN32 flags argv)) = List.length (tail argv).
Proof.
  intros Hflag Hne Himages Hnames. unfold main, Stabilizer.main.
  rewrite Hflag.
  pose proof (sort_permutation (tail argv)) as Hperm.
  assert (Hlen : List.length (sort (tail argv)) = List.length (tail argv))
    by (symmetry; apply Permutation_length, Hperm).
  destruct (get_images (ImportMatchesFromTxt (FLAGS_m flags)))
    as [|first rest] eqn:Hget.
  { destruct (tail argv); [congruence | cbn in Himages; lia]. }
  destruct (compose_spec Mat cols Mat3 coeff uninitialized Matches
              get_images TwoViewPointMatchMatrices
              Euclidean2DFromCorrespondences2PointRobust
              Similarity2DFromCorrespondences2PointRobust
              Affine2DFromCorrespondences3PointRobust
              Homography2DFromCorrespondences4PointRobust
              t (ImportMatchesFromTxt (FLAGS_m flags)) [] 1e-2 1
              first rest Hget) as (Hs & Hc & _).
  rewrite Hc. rewrite <- Hlen.
  apply run_completes.
  - reflexivity.
  - intros E. rewrite E in Hlen. destruct (tail argv); [congruence | discriminate].
  - rewrite reserved_behind_length, Hget, Hlen. lia.
  - intros file Hin. apply Hnames.
    apply (Permutation_in file (Permutation_sym Hperm) Hin).
Qed.

End Main.

End MainFacts.

(** ** More on HomogeneousToEuclidean *)

Module ProjectionMore.
Import Projection ProjectionFacts.
Local Open Scope nat_scope.


Section Reinterpretation.

Variable pun : Scalar -> R -> Depth -> R -> Z -> R.

(** With no round at all the loop leaves [x] as it is and reads nothing. *)
Lemma row_loop_no_round (T : Scalar) (D : Depth) (Xd hd : list R)
    (X_step x_step d : nat) :
  x_step = 0 \/ d = 0 ->
  forall (n h_ptr X_ptr x_ptr : nat) (xd : list R),
    row_loop pun T D Xd hd X_step x_step d n h_ptr X_ptr x_ptr xd = Some xd.
Proof.
  intros Hzero.
  assert (Hrounds : (if x_step =? 0 then 0 else d) = 0).
  { destruct Hzero as [->| ->]; [reflexivity | now destruct (x_step =? 0)]. }
  induction n as [|n IH]; intros h_ptr X_ptr x_ptr xd; [reflexivity|].
  cbn [row_loop]. rewrite Hrounds. cbn [column_loop]. apply IH.
Qed.


(** X14. Two or more Euclidean rows in freshly allocated matrices, with
    no more rows in the input than the scalar type has bytes (up to 4 rows
    of floats, up to 8 rows of doubles): the second round of the inner
    loop is outside the input, for every such matrix. *)
Theorem HomogeneousToEuclidean_leaves_the_buffer (T : Scalar) (d n : nat)
    (Xd xd : list R) :
  2 <= d -> S d <= sizeof T -> n <> 0 ->
  List.length Xd = S d * n -> List.length xd = d * n ->
  HomogeneousToEuclidean pun (continuous (S d) n (depth_of T) Xd)
                             (continuous d n (depth_of T) xd)
  = Fail OutOfBounds.
Proof.
  intros Hd Hsz Hn HX Hx.
  pose proof (elemSize_depth_of T) as Hesz.
  assert (Hdiv : n * sizeof T / sizeof T = n)
    by (apply Nat.div_mul; destruct T; discriminate).
  rewrite HomogeneousToEuclidean_dispatch.
  unfold continuous, HomogeneousToEuclidean_, Mat_.
  cbn [rows cols depth step data]. rewrite Hesz.
  replace (match depth_of T with CV_32F => float | _ => double end)
    with T by now destruct T.
  rewrite Depth_eqb_refl.
  rewrite Hdiv, Nat.mul_0_l.
  destruct n as [|n]; [congruence|].
  destruct d as [|[|d]]; [lia | lia |].
  cbn [row_loop].
  replace (S n * sizeof T =? 0) with false
    by (symmetry; apply Nat.eqb_neq; destruct T; cbn [sizeof]; lia).
  cbn [column_loop].
  destruct (lookup_lt_is_Some_2 Xd 0 ltac:(lia)) as [v Hv].
  destruct (lookup_lt_is_Some_2 Xd (S (S d) * S n) ltac:(nia)) as [h Hh].
  rewrite Hv, Hh.
  rewrite store_same_depth by lia.
  rewrite (lookup_ge_None_2 Xd (0 + S n * sizeof T)) by nia.
  reflexivity.
Qed.

(** X15. When the caller's matrix has step 0 (it was never allocated) or
    the input has a single row, nothing is read, nothing is written and the
    call returns: the output is the caller's matrix as it was. *)
Theorem HomogeneousToEuclidean_writes_nothing (X x : Mat) :
  rows X <> 0 -> step x = 0 \/ rows X = 1 ->
  HomogeneousToEuclidean pun X x = Ok x.
Proof.
  intros Hrows Hzero. rewrite HomogeneousToEuclidean_dispatch.
  unfold HomogeneousToEuclidean_.
  destruct (rows X) as [|d] eqn:E; [congruence|].
  destruct (Mat_ _ X 0 d) as [[Xd X_ptr] X_step].
  destruct (Mat_ _ X d 1) as [[hd h_ptr] h_step].
  rewrite row_loop_no_round by (destruct Hzero; [left | right]; lia).
  now destruct x.
Qed.


End Reinterpretation.

End ProjectionMore.

(** ** More on ReplaceFolder *)

Module FolderMore.
Import SizeT StdString StdStringFacts Folder FolderFacts Vocabulary.
Local Open Scope string_scope.

Lemma ReplaceFolder_WIN32_witness :
  ReplaceFolder true (String "i" (String "n" (backslash ++ "img01"))) "out"
  = "out" ++ backslash ++ "img01" /\
  ReplaceFolder true "in/img01" "out" = "out" ++ backslash ++ "img01" /\
  ReplaceFolder true "img01" "out" = "out" ++ backslash ++ "img01".
Proof.
  split; [|split].
  - refine (proj1 (ReplaceFolder_WIN32
                     (String "i" (String "n" (backslash ++ "img01"))) "out"
                     _ _ _) "in" "img01" _ _);
      [reflexivity | reflexivity | discriminate | reflexivity | reflexivity].
  - refine (proj1 (proj2 (ReplaceFolder_WIN32 "in/img01" "out" _ _ _))
              _ "in" "img01" _ _);
      [reflexivity | reflexivity | discriminate | reflexivity
       | reflexivity | reflexivity].
  - refine (proj2 (proj2 (ReplaceFolder_WIN32 "img01" "out" _ _ _)) _ _);
      [reflexivity | reflexivity | discriminate | reflexivity | reflexivity].
Defined.

Lemma file_part_has_no_slash (s : string) :
  occurs slash_char (file_part s) = false.
Proof.
  unfold file_part, slash.
  destruct (occurs slash_char s) eqn:Hocc.
  - destruct (occurs_split_last slash_char s Hocc) as (pre & post & -> & Hpost).
    rewrite (rfind_from_last slash_char pre post 0 Hpost). cbn [Nat.add].
    replace (pre ++ String slash_char post)
      with ((pre ++ String slash_char "") ++ post).
    2:{ clear. induction pre as [|x pre IH]; cbn; [reflexivity | now rewrite IH]. }
    replace (S (String.length pre))
      with (String.length (pre ++ String slash_char ""))
      by (rewrite length_app; cbn; lia).
    rewrite skip_app. exact Hpost.
  - rewrite (rfind_from_absent slash_char s 0 Hocc). exact Hocc.
Qed.

(** On the build without WIN32: the folder, made to end with a slash,
    before the file part of [s]. *)
Lemma ReplaceFolder_file_part (s new_folder : string) :
  (size s < npos)%Z -> (size new_folder < npos)%Z -> new_folder <> "" ->
  ReplaceFolder false s new_folder
  = with_separator slash_char new_folder ++ file_part s.
Proof.
  intros Hs Hnf Hne. unfold ReplaceFolder. rewrite (eqb_empty _ Hne).
  cbv zeta. unfold slash, file_part.
  rewrite (folder_part slash_char new_folder Hne Hnf).
  destruct (occurs slash_char s) eqn:Hocc.
  - destruct (occurs_split_last slash_char s Hocc) as (pre & post & -> & Hpost).
    rewrite (rfind_last slash_char pre post Hpost).
    rewrite (position_is_not_npos pre _ Hs). cbn [negb].
    rewrite (replace0_after_separator slash_char pre post _ Hs).
    unfold slash. rewrite (rfind_from_last slash_char pre post 0 Hpost).
    cbn [Nat.add]. f_equal.
    replace (pre ++ String slash_char post)
      with ((pre ++ String slash_char "") ++ post).
    2:{ clear. induction pre as [|x pre IH]; cbn; [reflexivity | now rewrite IH]. }
    replace (S (String.length pre))
      with (String.length (pre ++ String slash_char ""))
      by (rewrite length_app; cbn; lia).
    now rewrite skip_app.
  - rewrite (rfind_absent slash_char s Hocc), Z.eqb_refl. cbn [negb].
    unfold slash. now rewrite (rfind_from_absent slash_char s 0 Hocc).
Qed.

Lemma with_separator_ends (c : ascii) (folder : string) :
  exists w, with_separator c folder = w ++ String c "".
Proof.
  unfold with_separator. destruct (ends_with c folder) eqn:He.
  - clear -He. induction folder as [|a folder IH]; [discriminate|].
    destruct folder as [|b folder].
    + cbn in He. apply Ascii.eqb_eq in He. subst a. now exists "".
    + destruct (IH He) as [w Hw]. exists (String a w). cbn. now rewrite <- Hw.
  - now exists folder.
Qed.

Lemma append_assoc (a b c : string) : (a ++ b) ++ c = a ++ (b ++ c).
Proof. induction a as [|x a IH]; cbn; [reflexivity | now rewrite IH]. Qed.

(** X18. On the build without WIN32, the folder given last wins:
    replacing the folder of a path whose folder was already replaced
    gives what replacing it at once gives.  In particular, replacing
    twice by the same folder is replacing once. *)
Theorem ReplaceFolder_twice (s folder folder' : string) :
  (size s < npos)%Z -> (size folder < npos)%Z -> (size folder' < npos)%Z ->
  (size (ReplaceFolder false s folder) < npos)%Z ->
  folder <> "" -> folder' <> "" ->
  ReplaceFolder false (ReplaceFolder false s folder) folder'
  = ReplaceFolder false s folder'.
Proof.
  intros Hs Hf Hf' Hmid Hne Hne'.
  rewrite (ReplaceFolder_file_part (ReplaceFolder false s folder) folder'
             Hmid Hf' Hne').
  rewrite (ReplaceFolder_file_part s folder' Hs Hf' Hne'). f_equal.
  rewrite (ReplaceFolder_file_part s folder Hs Hf Hne).
  destruct (with_separator_ends slash_char folder) as [w ->].
  pose proof (file_part_has_no_slash s) as Hpost.
  rewrite append_assoc. cbn [append].
  unfold file_part at 1, slash.
  rewrite (rfind_from_last slash_char w (file_part s) 0 Hpost).
  cbn [Nat.add].
  replace (w ++ String slash_char (file_part s))
    with ((w ++ String slash_char "") ++ file_part s)
    by (rewrite append_assoc; reflexivity).
  replace (S (String.length w))
    with (String.length (w ++ String slash_char ""))
    by (rewrite length_app; cbn; lia).
  apply skip_app.
Qed.

Lemma ReplaceFolder_twice_witness :
  ReplaceFolder false (ReplaceFolder false "in/dir/img01" "tmp") "out/"
  = ReplaceFolder false "in/dir/img01" "out/".
Proof.
  apply (ReplaceFolder_twice "in/dir/img01" "tmp" "out/");
    first [reflexivity | discriminate].
Defined.

End FolderMore.

(** ** The further properties on small inputs *)

Module MoreSamples.
Import SizeT StdString Folder Matx MatxFacts Stabilizer StabilizeFacts
       StabilizeMore ComposerMore MainFacts Projection ProjectionMore Vocabulary.
Local Open Scope string_scope.

Lemma Stabilize_stops_at_name_without_dot_witness :
  exists f,
    fst (Stabilize nat (fun _ => O) (fun _ i => i) (fun _ => false)
           (fun image => image) (fun image _ => image)
           true false Sample.flags ["f0.png"; "f1"; "f2.png"] [] [eye; eye] []
           false) !! 1%nat = Some f /\
    snd (Stabilize nat (fun _ => O) (fun _ i => i) (fun _ => false)
           (fun image => image) (fun image _ => image)
           true false Sample.flags ["f0.png"; "f1"; "f2.png"] [] [eye; eye] []
           false) = Stopped OutOfRangeException /\
    frame_written f = None.
Proof.
  eexists. split; [reflexivity|].
  destruct (Stabilize_stops_at_name_without_dot
              (fun _ => O) (fun _ i => i) (fun _ => false)
              (fun image => image) (fun image _ => image)
              true false Sample.flags ["f0.png"; "f1"; "f2.png"] []
              [eye; eye] [] false 1%nat _ "f1"
              eq_refl eq_refl eq_refl eq_refl eq_refl)
    as (Hst & _ & Hw).
  split; [exact Hst | exact Hw].
Defined.

Lemma Stabilize_assertion_witness :
  Sample.stabilize false [eye; eye] = ([], Stopped AssertionFailed).
Proof.
  apply (Stabilize_assertion (fun _ => O) (fun _ i => i) (fun _ => false)
           (fun image => image) (fun image _ => image)
           false false Sample.flags Sample.files [] [eye; eye] [] false);
    [reflexivity | reflexivity | discriminate | cbn; lia].
Defined.

Lemma determinant_zeros : determinant zeros = 0%R.
Proof. unfold determinant; cbn. ring. Qed.

Lemma singular_transform_zeroes_the_rest_witness :
  exists f,
    fst (Sample.stabilize true [zeros; eye]) !! 2%nat = Some f /\
    frame_H f = zeros.
Proof.
  eexists. split; [reflexivity|].
  apply (singular_transform_zeroes_the_rest
           (fun _ => O) (fun _ i => i) (fun _ => false)
           (fun image => image) (fun image _ => image)
           true false Sample.flags Sample.files [] [zeros; eye] [] false
           0%nat 2%nat zeros _ eq_refl determinant_zeros);
    [lia | reflexivity].
Defined.

Lemma invertible_chain_inverts_product_witness :
  exists f,
    fst (Sample.stabilize true [Sample.twice; Sample.twice]) !! 2%nat
    = Some f /\
    frame_H f = inv (chain_product [Sample.twice; Sample.twice]) /\
    mul (frame_H f) (chain_product [Sample.twice; Sample.twice]) = eye.
Proof.
  eexists. split; [reflexivity|].
  refine (proj2 (proj2 (invertible_chain_inverts_product
                          (fun _ => O) (fun _ i => i) (fun _ => false)
                          (fun image => image) (fun image _ => image)
                          true false Sample.flags Sample.files []
                          [Sample.twice; Sample.twice] [] false 2%nat
                          _ _ _)) _).
  - repeat constructor; apply SampleFacts.invertible_twice.
  - reflexivity.
  - cbn. lia.
Defined.

Lemma Stabilize_completes_witness :
  snd (Sample.stabilize true [eye; eye]) = Done /\
  List.length (fst (Sample.stabilize true [eye; eye])) = 3%nat.
Proof.
  apply (Stabilize_completes (fun _ => O) (fun _ i => i) (fun _ => false)
           (fun image => image) (fun image _ => image)
           true false Sample.flags Sample.files [] [eye; eye] [] false).
  - reflexivity.
  - discriminate.
  - cbn. lia.
  - intros file [<-|[<-|[<-|[]]]]; discriminate.
Defined.

Lemma chain_is_a_scan_witness :
  Sample.compose Sample.gap_matches SIMILARITY
  = Ok ([MatToMatx Matx33d Sample.coeff eye], [(1, 2)]%Z).
Proof.
  apply (chain_is_a_scan Z (fun n => n) Matx33d Sample.coeff zeros
           Sample.Matches Sample.images Sample.TwoViewPointMatchMatrices
           Sample.estimator Sample.estimator Sample.estimator
           Sample.estimator SIMILARITY Sample.gap_matches [] 1e-2 1
           0%Z [1; 2]%Z eq_refl).
Defined.

Lemma chain_within_reserve_witness :
  exists Es' pairs,
    Sample.compose Sample.gap_matches SIMILARITY = Ok (Es', pairs) /\
    (List.length Es' <= 2)%nat.
Proof.
  apply (chain_within_reserve Z (fun n => n) Matx33d Sample.coeff zeros
           Sample.Matches Sample.images Sample.TwoViewPointMatchMatrices
           Sample.estimator Sample.estimator Sample.estimator
           Sample.estimator SIMILARITY Sample.gap_matches [] 1e-2 1).
  discriminate.
Defined.

Lemma richer_model_fewer_pairs_witness :
  exists Hs pairs Hs' pairs',
    Sample.compose Sample.gap_matches EUCLIDEAN = Ok (Hs, pairs) /\
    Sample.compose Sample.gap_matches HOMOGRAPHY = Ok (Hs', pairs') /\
    pairs' `sublist_of` pairs /\
    (List.length Hs' <= List.length Hs)%nat.
Proof.
  apply (richer_model_fewer_pairs Z (fun n => n) Matx33d Sample.coeff zeros
           Sample.Matches Sample.images Sample.TwoViewPointMatchMatrices
           Sample.estimator Sample.estimator Sample.estimator
           Sample.estimator EUCLIDEAN HOMOGRAPHY Sample.gap_matches []
           1e-2 1).
  - discriminate.
  - cbn. lia.
Defined.

Lemma main_sorts_its_files_witness :
  Sample.run Sample.gap_matches true
  = main Z (fun n => n) Matx33d Sample.coeff zeros Sample.unwritten
      Sample.Matches Sample.images Sample.TwoViewPointMatchMatrices
      Sample.estimator Sample.estimator Sample.estimator Sample.estimator
      (fun _ => Sample.gap_matches)
      nat (fun _ => O) (fun _ i => i) (fun _ => false)
      (fun image => image) (fun image _ => image)
      true false Sample.flags ["tool"; "f0.png"; "f1.png"; "f2.png"].
Proof.
  apply (main_sorts_its_files Z (fun n => n) Matx33d Sample.coeff zeros
           Sample.unwritten Sample.Matches Sample.images Sample.TwoViewPointMatchMatrices
           Sample.estimator Sample.estimator Sample.estimator
           Sample.estimator (fun _ => Sample.gap_matches)
           nat (fun _ => O) (fun _ i => i) (fun _ => false)
           (fun image => image) (fun image _ => image)
           true false Sample.flags Sample.argv
           ["tool"; "f0.png"; "f1.png"; "f2.png"]).
  apply (Permutation_cons_app ["f0.png"; "f1.png"] [] "f2.png").
  apply Permutation_refl.
Defined.

Lemma main_without_assertions_witness :
  snd (Sample.run Sample.gap_matches true) = Done /\
  List.length (fst (Sample.run Sample.gap_matches true)) = 3%nat.
Proof.
  apply (main_without_assertions Z (fun n => n) Matx33d Sample.coeff zeros
           Sample.unwritten Sample.Matches Sample.images
           Sample.TwoViewPointMatchMatrices
           Sample.estimator Sample.estimator Sample.estimator
           Sample.estimator (fun _ => Sample.gap_matches)
           nat (fun _ => O) (fun _ i => i) (fun _ => false)
           (fun image => image) (fun image _ => image)
           false Sample.flags Sample.argv SIMILARITY).
  - reflexivity.
  - discriminate.
  - cbn. lia.
  - intros file [<-|[<-|[<-|[]]]]; discriminate.
Defined.

Lemma main_with_assertions_witness :
  fst (Sample.run Sample.full_matches false) = [] /\
  snd (Sample.run Sample.full_matches false) <> Done.
Proof.
  apply (main_with_assertions Z (fun n => n) Matx33d Sample.coeff zeros
           Sample.unwritten Sample.Matches Sample.images Sample.TwoViewPointMatchMatrices
           Sample.estimator Sample.estimator Sample.estimator
           Sample.estimator (fun _ => Sample.full_matches)
           nat (fun _ => O) (fun _ i => i) (fun _ => false)
           (fun image => image) (fun image _ => image)
           false Sample.flags Sample.argv);
    [reflexivity | cbn; lia].
Defined.


Lemma HomogeneousToEuclidean_leaves_the_buffer_witness :
  HomogeneousToEuclidean sample_pun X_3x1 x_2x1 = Fail OutOfBounds.
Proof.
  apply (HomogeneousToEuclidean_leaves_the_buffer sample_pun double 2 1
           [2; 4; 2]%R [0; 0]%R);
    first [reflexivity | discriminate | cbn; lia].
Defined.

Lemma HomogeneousToEuclidean_writes_nothing_witness :
  HomogeneousToEuclidean sample_pun X_3x1 (mkMat 0 0 CV_64F 0 [])
  = Ok (mkMat 0 0 CV_64F 0 []).
Proof.
  apply (HomogeneousToEuclidean_writes_nothing sample_pun X_3x1
           (mkMat 0 0 CV_64F 0 []));
    [discriminate | left; reflexivity].
Defined.


End MoreSamples.

(** ** The size of the output of HomogeneousToEuclidean is not checked *)

Module ProjectionShape.
Import Projection ProjectionFacts.
Local Open Scope nat_scope.

Section Reinterpretation.

Variable pun : Scalar -> R -> Depth -> R -> Z -> R.

Lemma column_loop_length (T : Scalar) (D : Depth) (Xd hd : list R)
    (h_ptr X_step x_step : nat) :
  forall (n X_col_ptr x_col_ptr : nat) (xd xd' : list R),
    column_loop pun T D Xd hd h_ptr X_step x_step n X_col_ptr x_col_ptr xd
    = Some xd' ->
    List.length xd' = List.length xd.
Proof.
  induction n as [|n IH]; intros X_col_ptr x_col_ptr xd xd' Hrun;
    cbn [column_loop] in Hrun.
  - now injection Hrun as <-.
  - destruct (Xd !! X_col_ptr); [|discriminate].
    destruct (hd !! h_ptr); [|discriminate].
    destruct (store pun T D xd x_col_ptr _) as [xd0|] eqn:Hst; [|discriminate].
    rewrite (IH _ _ _ _ Hrun). apply (store_Some pun _ _ _ _ _ _ Hst).
Qed.

(** Columns are written one value of [T] after the other from the start
    of the buffer: when the buffer ends before the last of them, a store
    is outside it. *)
Lemma row_loop_short_output (T : Scalar) (D : Depth) (Xd hd : list R)
    (X_step x_step d : nat) :
  x_step <> 0 -> d <> 0 ->
  forall (n h_ptr X_ptr x_ptr : nat) (xd : list R),
    x_ptr * sizeof T <= List.length xd * elemSize D ->
    List.length xd * elemSize D < (x_ptr + n) * sizeof T ->
    row_loop pun T D Xd hd X_step x_step d n h_ptr X_ptr x_ptr xd = None.
Proof.
  intros Hstep Hd. apply Nat.eqb_neq in Hstep.
  induction n as [|n IH]; intros h_ptr X_ptr x_ptr xd Hin Hshort.
  - rewrite Nat.add_0_r in Hshort. lia.
  - cbn [row_loop]. rewrite Hstep.
    destruct (column_loop pun T D Xd hd h_ptr X_step x_step d X_ptr x_ptr xd)
      as [xd1|] eqn:Hcol; [|reflexivity].
    destruct d as [|d]; [congruence|]. cbn [column_loop] in Hcol.
    destruct (Xd !! X_ptr); [|discriminate].
    destruct (hd !! h_ptr); [|discriminate].
    destruct (store pun T D xd x_ptr _) as [xd0|] eqn:Hst; [|discriminate].
    destruct (store_Some pun _ _ _ _ _ _ Hst) as [Hlen0 Hfits].
    pose proof (column_loop_length _ _ _ _ _ _ _ _ _ _ _ _ Hcol) as Hlen1.
    apply IH; rewrite Hlen1, Hlen0.
    + cbn [Nat.mul]. lia.
    + replace (S x_ptr + n) with (x_ptr + S n) by lia. exact Hshort.
Qed.

(** X21. The size of the output is not checked: when the input has two
    rows or more and the caller's buffer has fewer bytes than one value of
    the path's type for each column of the input, a store goes past the end
    of the buffer. *)
Theorem HomogeneousToEuclidean_short_output (X x : Mat) :
  2 <= rows X -> step x <> 0 ->
  List.length (data x) * elemSize (depth x)
  < cols X * sizeof (match depth X with CV_32F => float | _ => double end) ->
  HomogeneousToEuclidean pun X x = Fail OutOfBounds.
Proof.
  intros Hrows Hstep Hshort. rewrite HomogeneousToEuclidean_dispatch.
  unfold HomogeneousToEuclidean_.
  destruct (rows X) as [|d]; [lia|].
  destruct (Mat_ _ X 0 d) as [[Xd X_ptr] X_step].
  destruct (Mat_ _ X d 1) as [[hd h_ptr] h_step].
  rewrite row_loop_short_output;
    [reflexivity | exact Hstep | lia | lia | exact Hshort].
Qed.

(** Two floats stored into an output of one double: both land in its one
    element, and no store is outside the buffer. *)
Example floats_into_a_double :
  HomogeneousToEuclidean pun X_2x2 (continuous 1 1 CV_64F [0]%R)
  = Ok (continuous 1 1 CV_64F
          [pun float (8 / 4)%R CV_64F
             (pun float (6 / 2)%R CV_64F 0%R 0%Z) (-4)%Z]).
Proof. reflexivity. Qed.

End Reinterpretation.

Lemma HomogeneousToEuclidean_short_output_witness :
  HomogeneousToEuclidean sample_pun X_2x2 (continuous 1 1 CV_32F [0]%R)
  = Fail OutOfBounds.
Proof.
  apply (HomogeneousToEuclidean_short_output sample_pun X_2x2
           (continuous 1 1 CV_32F [0]%R));
    first [discriminate | cbn; lia].
Defined.

End ProjectionShape.

(** ** A flag that names no transformation *)

Module FlagFacts.
Import SizeT StdString Folder Matx Stabilizer StabilizeFacts.

Section Main.

Variable Mat : Type.
Variable cols : Mat -> Z.
Variable Mat3 : Type.
Variable coeff : Mat3 -> nat -> nat -> R.
Variable uninitialized : Mat3.
Variable unwritten : nat -> Matx33d.
Variable Matches : Type.
Variable get_images : Matches -> list ImageID.
Variable TwoViewPointMatchMatrices : Matches -> ImageID -> ImageID -> Mat * Mat.
Variable Euclidean2DFromCorrespondences2PointRobust : RobustEstimator Mat Mat3.
Variable Similarity2DFromCorrespondences2PointRobust : RobustEstimator Mat Mat3.
Variable Affine2DFromCorrespondences3PointRobust : RobustEstimator Mat Mat3.
Variable Homography2DFromCorrespondences4PointRobust : RobustEstimator Mat Mat3.
Variable ImportMatchesFromTxt : string -> Matches.
Variable Image : Type.
Variable imread : string -> Image.
Variable GetImage : list string -> nat -> Image.
Variable empty : Image -> bool.
Variable draw_bounds : Image -> Image.
Variable warpPerspective : Image -> Matx33d -> Image.

Let main := main Mat cols Mat3 coeff uninitialized unwritten Matches get_images
              TwoViewPointMatchMatrices
              Euclidean2DFromCorrespondences2PointRobust
              Similarity2DFromCorrespondences2PointRobust
              Affine2DFromCorrespondences3PointRobust
              Homography2DFromCorrespondences4PointRobust
              ImportMatchesFromTxt
              Image imread GetImage empty draw_bounds warpPerspective.

(** X22. A value of the transformation flag outside 0..3 is not reported:
    no transform is estimated and Stabilize is given an empty chain.  At
    most the first frame is handled, under the identity, and with two
    files or more the run does not reach its end. *)
Theorem main_unknown_transformation (NDEBUG WIN32 : bool) (flags : Flags)
    (argv : list string) :
  (FLAGS_transformation flags < 0 \/ 3 < FLAGS_transformation flags)%Z ->
  (List.length (fst (main NDEBUG WIN32 flags argv)) <= 1)%nat /\
  (forall f, fst (main NDEBUG WIN32 flags argv) !! 0%nat = Some f ->
             frame_H f = eye) /\
  (3 <= List.length argv ->
   snd (main NDEBUG WIN32 flags argv) <> Done)%nat.
Proof.
  intros Hflag. unfold main, Stabilizer.main.
  assert (Hnone : transformation_of_flag (FLAGS_transformation flags) = None).
  { unfold transformation_of_flag.
    destruct (Z.eqb_spec (FLAGS_transformation flags) 0); [lia|].
    destruct (Z.eqb_spec (FLAGS_transformation flags) 1); [lia|].
    destruct (Z.eqb_spec (FLAGS_transformation flags) 2); [lia|].
    destruct (Z.eqb_spec (FLAGS_transformation flags) 3); [lia|].
    reflexivity. }
  rewrite Hnone.
  set (run := Stabilize Image imread GetImage empty draw_bounds
                warpPerspective NDEBUG WIN32 flags (sort (tail argv)) []
                [] [] (FLAGS_draw_lines flags)).
  assert (Hbound : (List.length (fst run) <= 1)%nat).
  { destruct (le_lt_dec (List.length (fst run)) 1) as [Hle|Hgt];
      [exact Hle|].
    destruct (lookup_lt_is_Some_2 (fst run) 1%nat Hgt) as [f Hf].
    destruct (run_frame_H _ _ _ _ _ _ _ _ _ _ _ _ _ _ _ Hf) as [_ Hle].
    cbn in Hle. lia. }
  split; [exact Hbound|]. split.
  - intros f Hf.
    destruct (run_frame_H _ _ _ _ _ _ _ _ _ _ _ _ _ _ _ Hf) as [-> _].
    reflexivity.
  - intros Hargv Hd.
    assert (Hlen : List.length (sort (tail argv)) = List.length (tail argv))
      by (symmetry; apply Permutation_length, SortFacts.sort_permutation).
    assert (Hrun : run = Stabilize_loop Image GetImage empty draw_bounds
                           warpPerspective WIN32 flags (sort (tail argv)) []
                           [] (FLAGS_draw_lines flags) (sort (tail argv))
                           0%nat eye).
    { unfold run, Stabilize in *.
      destruct (negb NDEBUG && _); [discriminate|].
      destruct (sort (tail argv)); [discriminate | reflexivity]. }
    rewrite Hrun in Hd, Hbound.
    rewrite (loop_Done _ _ _ _ _ _ _ _ _ _ _ _ _ Hd), Hlen in Hbound.
    destruct argv as [|a [|b [|c argv]]]; cbn in Hargv, Hbound; lia.
Qed.

End Main.

Lemma main_unknown_transformation_witness :
  (List.length
     (fst (main Z (fun n => n) Matx33d Sample.coeff zeros Sample.unwritten
             Sample.Matches Sample.images Sample.TwoViewPointMatchMatrices
             Sample.estimator Sample.estimator Sample.estimator
             Sample.estimator (fun _ => Sample.full_matches)
             nat (fun _ => O) (fun _ i => i) (fun _ => false)
             (fun image => image) (fun image _ => image)
             true false
             (mkFlags "matches.txt" 7 false "./" "_stab") Sample.argv))
   <= 1)%nat /\
  snd (main Z (fun n => n) Matx33d Sample.coeff zeros Sample.unwritten
         Sample.Matches Sample.images Sample.TwoViewPointMatchMatrices
         Sample.estimator Sample.estimator Sample.estimator
         Sample.estimator (fun _ => Sample.full_matches)
         nat (fun _ => O) (fun _ i => i) (fun _ => false)
         (fun image => image) (fun image _ => image)
         true false
         (mkFlags "matches.txt" 7 false "./" "_stab") Sample.argv)
  <> Done.
Proof.
  destruct (main_unknown_transformation Z (fun n => n) Matx33d Sample.coeff
              zeros Sample.unwritten Sample.Matches Sample.images
              Sample.TwoViewPointMatchMatrices
              Sample.estimator Sample.estimator Sample.estimator
              Sample.estimator (fun _ => Sample.full_matches)
              nat (fun _ => O) (fun _ i => i) (fun _ => false)
              (fun image => image) (fun image _ => image)
              true false (mkFlags "matches.txt" 7 false "./" "_stab")
              Sample.argv) as (Hlen & _ & Hend).
  - right. reflexivity.
  - split; [exact Hlen|]. apply Hend. cbn. lia.
Defined.

End FlagFacts.
